(** * LTX2 workflow scripts: graph compiler and subset extractor

    A shallow embedding of [scripts/convert_aio.py] (the compiler that
    flattens a node graph into a prompt map) and of
    [scripts/build_aio_workflows.py] (the extractor that derives variants
    from the flattened map), with the properties of both. *)

From Stdlib Require Import ZArith String List Lia DecimalString.
From Stdlib Require DecimalZ DecimalPos.
From stdpp Require Import gmap strings list.

Set Warnings "-clear-no-such-hyp".

Local Open Scope string_scope.
Local Open Scope list_scope.
Local Open Scope Z_scope.

(** ** JSON values, as [json.load] hands them to the scripts *)

(** A float is carried around but never computed with; it is kept as the
    pair mantissa/exponent of its value. *)
#[warnings="-register-all"]
Inductive json : Type :=
| JNull
| JBool (b : bool)
| JInt (z : Z)
| JFloat (m e : Z)
| JStr (s : string)
| JList (l : list json)
| JDict (d : list (string * json)).

(** Python truth value of a JSON value ([if x:]). *)
Definition truthy (v : json) : bool :=
  match v with
  | JNull => false
  | JBool b => b
  | JInt z => negb (z =? 0)
  | JFloat m _ => negb (m =? 0)
  | JStr s => negb (String.eqb s "")
  | JList l => match l with [] => false | _ => true end
  | JDict d => match d with [] => false | _ => true end
  end.

(** [x.get(k)] followed by a truth test: an absent key gives [None]. *)
Definition truthy_opt (o : option json) : bool :=
  match o with Some v => truthy v | None => false end.

Definition is_list (v : json) : bool :=
  match v with JList _ => true | _ => false end.

(** [v == s] for a string literal [s]. *)
Definition json_eq_str (v : json) (s : string) : bool :=
  match v with JStr t => String.eqb t s | _ => false end.

(** [str(n)] on an integer. *)
Definition str_Z (z : Z) : string := NilZero.string_of_int (Z.to_int z).

(** Node ids reach [set_link] either as integers or as strings. *)
Inductive pyid : Type :=
| IdInt (z : Z)
| IdStr (s : string).

Definition py_str (i : pyid) : string :=
  match i with IdInt z => str_Z z | IdStr s => s end.

(** ** Python dictionaries

    A [dict] keeps its keys in insertion order and holds a key once:
    an association list, with assignment replacing in place or appending. *)

Abbreviation pydict V := (list (string * V)) (only parsing).

Section Dict.
Context {V : Type}.

Fixpoint dict_get (d : pydict V) (k : string) : option V :=
  match d with
  | [] => None
  | (k', v) :: d' => if String.eqb k' k then Some v else dict_get d' k
  end.

(** [d[k] = v] *)
Fixpoint dict_set (d : pydict V) (k : string) (v : V) : pydict V :=
  match d with
  | [] => [(k, v)]
  | (k', v') :: d' =>
      if String.eqb k' k then (k', v) :: d' else (k', v') :: dict_set d' k v
  end.

Definition dict_keys (d : pydict V) : list string := d.*1.

(** [k in d] *)
Definition dict_has (d : pydict V) (k : string) : bool :=
  match dict_get d k with Some _ => true | None => false end.

(** The well-formedness every Python dict has: no key twice. *)
Definition dict_wf (d : pydict V) : Prop := NoDup (dict_keys d).
End Dict.

(** ** The flattened graph (the "prompt") *)

Record flat_node : Type := {
  class_type : json;
  inputs : pydict json
}.

Definition with_inputs (node : flat_node) (ins : pydict json) : flat_node :=
  {| class_type := class_type node; inputs := ins |}.

(** A Reference is recognised by shape only: a two-element list whose
    first element is a string ([build_aio_workflows.py], line 18). *)
Definition as_reference (val : json) : option string :=
  match val with
  | JList [JStr p; _] => Some p
  | _ => None
  end.

Definition reference (p : string) (slot : Z) : json :=
  JList [JStr p; JInt slot].

(** ** [build_aio_workflows.py] *)

(** The objects of the loaded document live in a heap; [prompt] maps each
    node id to the location of its node object.  [out] of [build] is a
    second dictionary over the same locations. *)
Abbreviation loc := nat (only parsing).

Record pystate : Type := {
  heap : list flat_node;
  prompt : pydict loc
}.

Fixpoint load_from (n : loc) (doc : pydict flat_node) : pydict loc :=
  match doc with
  | [] => []
  | (nid, _) :: doc' => (nid, n) :: load_from (S n) doc'
  end.

(** [prompt = json.load(f)]: one fresh object per node. *)
Definition json_load (doc : pydict flat_node) : pystate :=
  {| heap := doc.*2; prompt := load_from 0%nat doc |}.

(** [json.dump(d, f)]: the document a dictionary denotes in a heap. *)
Fixpoint json_dump (h : list flat_node) (d : pydict loc) : pydict flat_node :=
  match d with
  | [] => []
  | (nid, l) :: d' =>
      match h !! l with
      | Some node => (nid, node) :: json_dump h d'
      | None => json_dump h d'
      end
  end.

(** Lines 16-22: the inner loop that fills [clean]. *)
Definition clean_step (subset : gset string) (clean : pydict json)
    (item : string * json) : pydict json :=
  let '(key, val) := item in
  match as_reference val with
  | Some p => if decide (p ∈ subset) then dict_set clean key val else clean
  | None => dict_set clean key val
  end.

Definition clean_inputs (subset : gset string) (ins : pydict json) : pydict json :=
  foldl (clean_step subset) [] ins.

(** Line 13: the dictionary comprehension; the values are the node
    objects of [prompt] themselves, not copies. *)
Definition select (subset : gset string) (d : pydict loc) : pydict loc :=
  foldl
    (fun out '(nid, l) => if decide (nid ∈ subset) then dict_set out nid l else out)
    [] d.

(** Lines 14-23: [node['inputs'] = clean] writes into the shared object. *)
Definition prune_at (subset : gset string) (h : list flat_node) (l : loc)
    : list flat_node :=
  match h !! l with
  | Some node => <[l := with_inputs node (clean_inputs subset (inputs node))]> h
  | None => h
  end.

Definition build (subset : gset string) (st : pystate)
    : pydict flat_node * pystate :=
  let out := select subset (prompt st) in
  let h' := foldl (fun h '(_, l) => prune_at subset h l) (heap st) out in
  (json_dump h' out, {| heap := h'; prompt := prompt st |}).

(** The document a single [build] writes for a freshly loaded [flat]. *)
Definition extract (flat : pydict flat_node) (keep : gset string)
    : pydict flat_node :=
  fst (build keep (json_load flat)).

(** What [prompt] denotes once that [build] has returned. *)
Definition prompt_after (flat : pydict flat_node) (keep : gset string)
    : pydict flat_node :=
  let st := snd (build keep (json_load flat)) in
  json_dump (heap st) (prompt st).

Definition i2v_ids : gset string :=
  list_to_set ["9";"16";"37";"34";"54";"55";"56";"57";"32";"53";"72";"79";"96"].
Definition t2v_ids : gset string :=
  list_to_set ["9";"28";"8";"11";"39";"32";"53";"72";"79";"96"].

(** Lines 28-29: the two documents the script writes, in order. *)
Definition build_all (flat : pydict flat_node)
    : pydict flat_node * pydict flat_node :=
  let st0 := json_load flat in
  let '(i2v, st1) := build i2v_ids st0 in
  let '(t2v, _) := build t2v_ids st1 in
  (i2v, t2v).


(** The extractor's test of lines 18-22 on one input value. *)
Definition kept (keep : gset string) (val : json) : Prop :=
  match as_reference val with
  | Some p => p ∈ keep
  | None => True
  end.

Global Instance kept_dec keep val : Decision (kept keep val).
Proof. unfold kept. destruct (as_reference val); apply _. Defined.

Definition prune_node (keep : gset string) (node : flat_node) : flat_node :=
  with_inputs node (clean_inputs keep (inputs node)).

(** Both levels of a flattened graph are dictionaries. *)
Definition flat_wf (flat : pydict flat_node) : Prop :=
  dict_wf flat ∧ Forall (λ kn, dict_wf (inputs kn.2)) flat.

(** ** [convert_aio.py] *)

(** An input port of a raw node: [inp['name']], [inp.get('link')] ([None]
    when absent or null) and [inp.get('widget')]. *)
Record port : Type := {
  name : string;
  link : option Z;
  widget : option json
}.

(** A raw node: [node['id']], [node.get('type')], [node.get('inputs', [])]
    and [node.get('widgets_values')], [JNull] standing for an absent key. *)
Record raw_node : Type := {
  node_id : Z;
  node_type : json;
  node_inputs : list port;
  widgets_values : json
}.

(** One row [l] of [data['links']]: [l[0]] ... [l[4]]. *)
Record link_row : Type := {
  link_id : Z;
  src_node : Z;
  src_slot : Z;
  dst_node : Z;
  dst_slot : Z
}.

Record raw_graph : Type := {
  nodes : list raw_node;
  links : list link_row
}.

(** The exceptions the script can die of. *)
Inductive py_error : Type :=
| KeyError (k : Z)
| ValueError.

Inductive result (A : Type) : Type :=
| Ok (a : A)
| Raise (e : py_error).
Arguments Ok {A} a.
Arguments Raise {A} e.

Global Instance result_ret : MRet result := fun A a => Ok a.

Global Instance result_bind : MBind result := fun A B f r =>
  match r with
  | Ok a => f a
  | Raise e => Raise e
  end.

(** Line 11: [links = {l[0]: l for l in data['links']}]; a later row with
    the same id replaces an earlier one. *)
Definition links_index (rows : list link_row) : gmap Z link_row :=
  foldl (fun m l => <[link_id l := l]> m) ∅ rows.

(** [widgets[i] if len(widgets) > i else dflt] *)
Definition widget_or (ws : list json) (i : nat) (dflt : json) : json :=
  match ws !! i with
  | Some v => v
  | None => dflt
  end.

(** Lines 28-35. *)
Definition ksampler_mapping (ws : list json) : pydict json :=
  [("seed", widget_or ws 0 (JInt 0));
   ("steps", widget_or ws 2 (JInt 4));
   ("cfg", widget_or ws 3 (JInt 5));
   ("sampler_name", widget_or ws 4 (JStr "euler"));
   ("scheduler", widget_or ws 5 (JStr "beta"));
   ("denoise", widget_or ws 6 (JInt 1))].

(** Lines 26-35: [mapping] stays [None] unless the node is a KSampler
    with a list of widgets. *)
Definition mapping_of (node : raw_node) : option (pydict json) :=
  match widgets_values node with
  | JList ws =>
      if json_eq_str (node_type node) "KSampler"
      then Some (ksampler_mapping ws) else None
  | _ => None
  end.

(** [mapping and name in mapping], then [mapping[name]]. *)
Definition mapping_get (mapping : option (pydict json)) (nm : string)
    : option json :=
  match mapping with
  | Some m => match m with [] => None | _ => dict_get m nm end
  | None => None
  end.

(** Lines 37-57: the body of the loop over the inputs of one node; the
    state is [entry['inputs']] and [widget_idx]. *)
Definition bind_input (table : gmap Z link_row) (widgets : json)
    (mapping : option (pydict json)) (st : pydict json * nat) (inp : port)
    : result (pydict json * nat) :=
  let '(ins, widget_idx) := st in
  match link inp with
  | Some lid =>
      match table !! lid with
      | None => Raise (KeyError lid)
      | Some l =>
          Ok (dict_set ins (name inp) (reference (str_Z (src_node l)) (src_slot l)),
              if truthy_opt (widget inp) && is_list widgets
              then S widget_idx else widget_idx)
      end
  | None =>
      if truthy_opt (widget inp) then
        match mapping_get mapping (name inp) with
        | Some v => Ok (dict_set ins (name inp) v, widget_idx)
        | None =>
            match widgets with
            | JDict kv =>
                match dict_get kv (name inp) with
                | Some v => Ok (dict_set ins (name inp) v, widget_idx)
                | None => Ok (ins, widget_idx)
                end
            | JList ws =>
                match ws !! widget_idx with
                | Some v => Ok (dict_set ins (name inp) v, S widget_idx)
                | None => Ok (ins, S widget_idx)
                end
            | _ => Ok (ins, widget_idx)
            end
        end
      else Ok (ins, widget_idx)
  end.

Fixpoint bind_inputs (table : gmap Z link_row) (widgets : json)
    (mapping : option (pydict json)) (st : pydict json * nat)
    (inps : list port) : result (pydict json * nat) :=
  match inps with
  | [] => Ok st
  | inp :: rest =>
      st' ← bind_input table widgets mapping st inp;
      bind_inputs table widgets mapping st' rest
  end.

(** Lines 16-58: the entry of one node, with the final cursor. *)
Definition compile_node (table : gmap Z link_row) (node : raw_node)
    : result (flat_node * nat) :=
  st ← bind_inputs table (widgets_values node) (mapping_of node)
         ([], 0%nat) (node_inputs node);
  Ok ({| class_type := node_type node; inputs := st.1 |}, st.2).

(** Lines 13-59: the loop over the nodes, [prompt[nid] = entry]. *)
Fixpoint compile_nodes (table : gmap Z link_row) (acc : pydict flat_node)
    (ns : list raw_node) : result (pydict flat_node) :=
  match ns with
  | [] => Ok acc
  | node :: rest =>
      e ← compile_node table node;
      compile_nodes table (dict_set acc (str_Z (node_id node)) e.1) rest
  end.

Definition compile (data : raw_graph) : result (pydict flat_node) :=
  compile_nodes (links_index (links data)) [] (nodes data).

Definition unet_file : string := "wan2.2-rapid-mega-aio-nsfw-v12.1-Q8_0.gguf".

(** Lines 62-65. *)
Definition update_unet (flat : pydict flat_node) : pydict flat_node :=
  (λ kn : string * flat_node,
     if json_eq_str (class_type kn.2) "UnetLoaderGGUF"
        && dict_has (inputs kn.2) "unet_name"
     then (kn.1, with_inputs kn.2 (dict_set (inputs kn.2) "unet_name" (JStr unet_file)))
     else kn) <$> flat.

(** Line 68: [max] of an empty sequence raises. *)
Definition max_id (ns : list raw_node) : result Z :=
  match ns with
  | [] => Raise ValueError
  | n :: rest => Ok (foldl Z.max (node_id n) (node_id <$> rest))
  end.

(** Lines 71-75. *)
Fixpoint find_clip_loader (flat : pydict flat_node) : option string :=
  match flat with
  | [] => None
  | (nid, node) :: rest =>
      if json_eq_str (class_type node) "CLIPLoader" then Some nid
      else find_clip_loader rest
  end.

(** Lines 77-84; an empty id string counts as false in [if clip_loader_id]. *)
Definition add_negative (flat : pydict flat_node) (neg_id : string)
    : pydict flat_node :=
  match find_clip_loader flat with
  | Some clip_loader_id =>
      if String.eqb clip_loader_id "" then flat
      else dict_set flat neg_id
             {| class_type := JStr "CLIPTextEncode";
                inputs := [("clip", reference clip_loader_id 0);
                           ("text", JStr "")] |}
  | None => flat
  end.

(** Lines 88-92.  A node of the prompt always has its two keys, so
    [not node] holds for an absent id only. *)
Definition set_link (flat : pydict flat_node) (nid : pyid)
    (input_name : string) (src_id : pyid) (src_slot : Z) : pydict flat_node :=
  match dict_get flat (py_str nid) with
  | None => flat
  | Some node =>
      dict_set flat (py_str nid)
        (with_inputs node
           (dict_set (inputs node) input_name (reference (py_str src_id) src_slot)))
  end.

(** Lines 96-110. *)
Definition wire (flat : pydict flat_node) (neg_id : string) : pydict flat_node :=
  let flat := foldl (fun p ks => set_link p (IdStr ks) "model" (IdStr "32") 0)
                flat ["8"; "55"] in
  let flat := foldl (fun p vace => set_link p (IdStr vace) "vae" (IdStr "53") 0)
                flat ["28"; "54"] in
  let flat := foldl (fun p vd => set_link p (IdStr vd) "vae" (IdStr "53") 0)
                flat ["11"; "56"] in
  let flat := set_link flat (IdStr "28") "positive" (IdStr "9") 0 in
  let flat := set_link flat (IdStr "54") "positive" (IdStr "9") 0 in
  let flat := set_link flat (IdStr "28") "negative" (IdStr neg_id) 0 in
  set_link flat (IdStr "54") "negative" (IdStr neg_id) 0.

(** The whole script: the document it writes, or the exception. *)
Definition convert (data : raw_graph) : result (pydict flat_node) :=
  flat ← compile data;
  let flat := update_unet flat in
  m ← max_id (nodes data);
  let neg_id := str_Z (m + 1) in
  Ok (wire (add_negative flat neg_id) neg_id).

(** ** Properties of flattened graphs, and the graphs used as examples *)

(** No dangling Reference: every producer named in an input is a key. *)
Definition closed_refs (flat : pydict flat_node) : Prop :=
  ∀ nid node nm val p,
    (nid, node) ∈ flat → (nm, val) ∈ inputs node →
    as_reference val = Some p → p ∈ dict_keys flat.

(** Two nodes of the shipped workflow: "9" feeds on "28". *)
Definition two_nodes : pydict flat_node :=
  [("9", {| class_type := JStr "CLIPTextEncode";
            inputs := [("clip", reference "28" 0); ("text", JStr "hi")] |});
   ("28", {| class_type := JStr "WanVaceToVideo"; inputs := [] |})].

(** A node whose producer is not part of the document. *)
Definition lone_node : pydict flat_node :=
  [("a", {| class_type := JStr "A"; inputs := [("x", reference "b" 0)] |})].

(** A node whose inputs cover the shapes the extractor tells apart. *)
Definition shapes_node : flat_node :=
  {| class_type := JStr "S";
     inputs := [("ref_in", JList [JStr "n"; JStr "not a slot"]);
                ("ref_out", JList [JStr "gone"; JNull]);
                ("pair", JList [JInt 1; JInt 2]);
                ("triple", JList [JStr "gone"; JInt 0; JInt 0]);
                ("text", JStr "gone")] |}.

Definition shapes : pydict flat_node := [("n", shapes_node)].

(** ** Vocabulary for the binding loop *)

Definition widget_flagged (inp : port) : bool := truthy_opt (widget inp).

Definition linked (inp : port) : bool :=
  match link inp with Some _ => true | None => false end.

(** An unlinked port whose name the type-specific mapping covers. *)
Definition overridden (mapping : option (pydict json)) (inp : port) : bool :=
  negb (linked inp) &&
  match mapping_get mapping (name inp) with Some _ => true | None => false end.

(** The ports at which [widget_idx] moves when the widgets are a list. *)
Definition advances (mapping : option (pydict json)) (inp : port) : bool :=
  widget_flagged inp && negb (overridden mapping inp).

Definition count_ports (f : port → bool) (inps : list port) : nat :=
  length (List.filter f inps).

(** The override table in the words of the specification: for each covered
    input name, the index into the widget array and the default literal. *)
Definition ksampler_spec : list (string * (nat * json)) :=
  [("seed", (0%nat, JInt 0));
   ("steps", (2%nat, JInt 4));
   ("cfg", (3%nat, JInt 5));
   ("sampler_name", (4%nat, JStr "euler"));
   ("scheduler", (5%nat, JStr "beta"));
   ("denoise", (6%nat, JInt 1))].

(** Every link declared on a port of [inps] is in the table. *)
Definition links_present (table : gmap Z link_row) (inps : list port) : Prop :=
  Forall (λ inp, ∀ lid, link inp = Some lid → is_Some (table !! lid)) inps.

(** ** Raw graphs used as examples *)

Definition flag : option json := Some (JDict [("name", JStr "w")]).

Definition one_link : gmap Z link_row :=
  links_index [{| link_id := 10; src_node := 1; src_slot := 0;
                  dst_node := 2; dst_slot := 0 |}].

(** Two widget-flagged ports, the first one linked, with one widget. *)
Definition cursor_node : raw_node :=
  {| node_id := 2; node_type := JStr "T";
     node_inputs := [{| name := "a"; link := Some 10; widget := flag |};
                     {| name := "b"; link := None; widget := flag |}];
     widgets_values := JList [JInt 7] |}.

(** The same ports with one widget slot per flagged port. *)
Definition aligned_node : raw_node :=
  {| node_id := 2; node_type := JStr "T";
     node_inputs := [{| name := "a"; link := Some 10; widget := flag |};
                     {| name := "b"; link := None; widget := flag |}];
     widgets_values := JList [JInt 6; JInt 7] |}.

(** A KSampler with a widget-flagged port outside the override table. *)
Definition ksampler_node : raw_node :=
  {| node_id := 3; node_type := JStr "KSampler";
     node_inputs := [{| name := "seed"; link := None; widget := flag |};
                     {| name := "extra"; link := None; widget := flag |}];
     widgets_values := JList [JInt 42; JStr "fixed"] |}.

(** The key under which a raw node is stored. *)
Definition node_key (node : raw_node) : string := str_Z (node_id node).

(** The two-node scenario of the specification; [w] is the value of the
    [widget] key on port "x". *)
Definition scenario (w : json) : raw_graph :=
  {| nodes := [{| node_id := 1; node_type := JStr "TypeA";
                  node_inputs := [{| name := "x"; link := None; widget := Some w |}];
                  widgets_values := JList [JInt 5] |};
               {| node_id := 2; node_type := JStr "TypeB";
                  node_inputs := [{| name := "y"; link := Some 10; widget := None |}];
                  widgets_values := JNull |}];
     links := [{| link_id := 10; src_node := 1; src_slot := 0;
                  dst_node := 2; dst_slot := 0 |}] |}.

Definition scenario_flat : pydict flat_node :=
  [("1", {| class_type := JStr "TypeA"; inputs := [("x", JInt 5)] |});
   ("2", {| class_type := JStr "TypeB"; inputs := [("y", reference "1" 0)] |})].

(** The scenario with the link row taken away. *)
Definition broken_scenario : raw_graph :=
  {| nodes := nodes (scenario (JBool true)); links := [] |}.

(** ** Vocabulary for referential integrity of the compiler's output *)

(** Lines 96-110 as the calls they make: target node, input, producer. *)
Definition forced_links (neg_id : string) : list (string * string * string) :=
  [("8", "model", "32"); ("55", "model", "32");
   ("28", "vae", "53"); ("54", "vae", "53");
   ("11", "vae", "53"); ("56", "vae", "53");
   ("28", "positive", "9"); ("54", "positive", "9");
   ("28", "negative", neg_id); ("54", "negative", neg_id)].

(** Every forced link that finds its target finds its producer too. *)
Definition forced_ok (flat : pydict flat_node) (neg_id : string) : Prop :=
  Forall (λ c : string * string * string,
            c.1.1 ∈ dict_keys flat → c.2 ∈ dict_keys flat)
         (forced_links neg_id).

(** No dangling link: every declared link id has a row, and the producer
    of that row is a node of the graph. *)
Definition no_dangling_links (data : raw_graph) : Prop :=
  Forall (λ node,
    Forall (λ inp, ∀ lid, link inp = Some lid →
              ∃ l, links_index (links data) !! lid = Some l ∧
                   src_node l ∈ node_id <$> nodes data)
           (node_inputs node))
    (nodes data).

(** No widget value has the shape of a Reference. *)
Definition plain_widgets (node : raw_node) : Prop :=
  match widgets_values node with
  | JList ws => Forall (λ v, as_reference v = None) ws
  | JDict kv => Forall (λ kv, as_reference kv.2 = None) kv
  | _ => True
  end.

(** The values the resolver can bind from the widgets of a node. *)
Definition widget_literal (widgets : json) (mapping : option (pydict json))
    (val : json) : Prop :=
  (∃ nm, mapping_get mapping nm = Some val) ∨
  match widgets with
  | JList ws => val ∈ ws
  | JDict kv => ∃ k, (k, val) ∈ kv
  | _ => False
  end.

Definition refs_within (K : string → Prop) (flat : pydict flat_node) : Prop :=
  ∀ nid node nm val p,
    (nid, node) ∈ flat → (nm, val) ∈ inputs node →
    as_reference val = Some p → K p.

(** A single node with id 8 and nothing else. *)
Definition lone_sampler : raw_graph :=
  {| nodes := [{| node_id := 8; node_type := JStr "KSampler";
                  node_inputs := []; widgets_values := JNull |}];
     links := [] |}.

(** A sampler fed by a model node, both present. *)
Definition wired_pair : raw_graph :=
  {| nodes := [{| node_id := 32; node_type := JStr "ModelSamplingSD3";
                  node_inputs := []; widgets_values := JList [JInt 8] |};
               {| node_id := 8; node_type := JStr "KSampler";
                  node_inputs := [{| name := "model"; link := Some 1;
                                     widget := None |}];
                  widgets_values := JList [JInt 42] |}];
     links := [{| link_id := 1; src_node := 32; src_slot := 0;
                  dst_node := 8; dst_slot := 0 |}] |}.

Definition wired_flat : pydict flat_node :=
  [("32", {| class_type := JStr "ModelSamplingSD3"; inputs := [] |});
   ("8", {| class_type := JStr "KSampler";
            inputs := [("model", reference "32" 0)] |})].

Definition lone_flat : pydict flat_node :=
  [("8", {| class_type := JStr "KSampler";
            inputs := [("model", reference "32" 0)] |})].

(** ** Vocabulary for the hooks *)

(** What lines 63-65 do to one node. *)
Definition unet_fix (node : flat_node) : flat_node :=
  if json_eq_str (class_type node) "UnetLoaderGGUF"
     && dict_has (inputs node) "unet_name"
  then with_inputs node (dict_set (inputs node) "unet_name" (JStr unet_file))
  else node.

(** The node of lines 78-84. *)
Definition negative_node (clip_loader_id : string) : flat_node :=
  {| class_type := JStr "CLIPTextEncode";
     inputs := [("clip", reference clip_loader_id 0); ("text", JStr "")] |}.

(** The node ids and the input names lines 96-110 write to. *)
Definition forced_targets : list string := ["8"; "55"; "28"; "54"; "11"; "56"].
Definition forced_names : list string := ["model"; "vae"; "positive"; "negative"].

(** A run of [set_link] calls with string ids and slot 0. *)
Definition set_links (flat : pydict flat_node)
    (calls : list (string * string * string)) : pydict flat_node :=
  foldl (fun p (c : string * string * string) =>
           set_link p (IdStr c.1.1) c.1.2 (IdStr c.2) 0)
    flat calls.

(** A graph with a CLIPLoader, whose greatest id is 7: the negative node
    gets the id 8, one of the targets of the forced links. *)
Definition clip_graph : raw_graph :=
  {| nodes := [{| node_id := 7; node_type := JStr "CLIPLoader";
                  node_inputs := []; widgets_values := JNull |}];
     links := [] |}.

(** A node with keyed widgets. *)
Definition keyed_node : raw_node :=
  {| node_id := 4; node_type := JStr "K";
     node_inputs := [{| name := "a"; link := None; widget := flag |};
                     {| name := "b"; link := None; widget := flag |};
                     {| name := "c"; link := None; widget := None |}];
     widgets_values := JDict [("b", JInt 2); ("c", JInt 3); ("z", JInt 9)] |}.

(** A node without widgets: one linked port, one widget-flagged port. *)
Definition bare_node : raw_node :=
  {| node_id := 5; node_type := JStr "B";
     node_inputs := [{| name := "y"; link := Some 10; widget := None |};
                     {| name := "w"; link := None; widget := flag |}];
     widgets_values := JNull |}.

(** A sampler whose "pair" input is a literal: two strings, no slot. *)
Definition literal_pair : pydict flat_node :=
  [("k", {| class_type := JStr "KSampler";
            inputs := [("pair", JList [JStr "euler"; JStr "normal"]);
                       ("steps", JInt 4)] |})].

(** * Proofs *)

(** ** Dictionaries: basic facts *)

Section DictFacts.
Context {V : Type}.
Implicit Types (d : pydict V) (k : string) (v : V).

Lemma dict_set_fresh d k v :
  k ∉ dict_keys d → dict_set d k v = d ++ [(k, v)].
Proof.
  induction d as [|[k' v'] d IH]; simpl; [done|].
  intros Hk. apply not_elem_of_cons in Hk as [Hne Hk].
  destruct (String.eqb_spec k' k) as [->|_]; [done|].
  by rewrite IH.
Qed.

Lemma dict_keys_set d k v :
  ∀ x, x ∈ dict_keys (dict_set d k v) ↔ x = k ∨ x ∈ dict_keys d.
Proof.
  unfold dict_keys. induction d as [|[k' v'] d IH]; intros x; simpl.
  - rewrite list_elem_of_singleton. set_solver.
  - destruct (String.eqb_spec k' k) as [->|Hne]; simpl.
    + set_solver.
    + rewrite !elem_of_cons, IH. tauto.
Qed.

Lemma dict_set_elem d k v k0 v0 :
  (k0, v0) ∈ dict_set d k v → (k0 = k ∧ v0 = v) ∨ (k0, v0) ∈ d.
Proof.
  induction d as [|[k' v'] d IH]; simpl.
  - rewrite list_elem_of_singleton. intros [= -> ->]. by left.
  - destruct (String.eqb_spec k' k) as [->|Hne];
      rewrite !elem_of_cons.
    + intros [[= -> ->]|H]; [by left|right; by right].
    + intros [H|H]; [right; by left|].
      destruct (IH H) as [?|?]; [by left|right; by right].
Qed.

Lemma dict_get_set_eq d k v : dict_get (dict_set d k v) k = Some v.
Proof.
  induction d as [|[k' v'] d IH]; simpl.
  - by rewrite String.eqb_refl.
  - destruct (String.eqb_spec k' k) as [->|Hne]; simpl.
    + by rewrite String.eqb_refl.
    + by destruct (String.eqb_spec k' k).
Qed.

Lemma dict_get_set_ne d k v k0 :
  k0 ≠ k → dict_get (dict_set d k v) k0 = dict_get d k0.
Proof.
  intros Hne. induction d as [|[k' v'] d IH]; simpl.
  - by destruct (String.eqb_spec k k0) as [->|_].
  - destruct (String.eqb_spec k' k) as [->|Hk]; simpl.
    + by destruct (String.eqb_spec k k0) as [->|_].
    + by rewrite IH.
Qed.

Lemma dict_get_Some_elem d k v : dict_get d k = Some v → (k, v) ∈ d.
Proof.
  induction d as [|[k' v'] d IH]; simpl; [done|].
  destruct (String.eqb_spec k' k) as [->|_].
  - intros [= ->]. by left.
  - intros H. right. by apply IH.
Qed.

Lemma dict_get_None d k : dict_get d k = None ↔ k ∉ dict_keys d.
Proof.
  unfold dict_keys. induction d as [|[k' v'] d IH]; simpl.
  - split; [intros _; apply not_elem_of_nil|done].
  - destruct (String.eqb_spec k' k) as [->|Hne].
    + split; [done|]. intros H. exfalso. apply H. by left.
    + rewrite IH, not_elem_of_cons. naive_solver.
Qed.

Lemma dict_get_elem_wf d k v :
  dict_wf d → (k, v) ∈ d → dict_get d k = Some v.
Proof.
  unfold dict_wf, dict_keys.
  induction d as [|[k' v'] d IH]; simpl; [by intros _ ?%elem_of_nil|].
  intros [Hk Hd]%NoDup_cons [[= -> ->]|Hin]%elem_of_cons.
  - by rewrite String.eqb_refl.
  - destruct (String.eqb_spec k' k) as [->|_]; [|by apply IH].
    exfalso. apply Hk. apply (list_elem_of_fmap_2 fst) in Hin. done.
Qed.
End DictFacts.

(** ** The extractor as a map-to-map function *)

Section ExtractFacts.
Implicit Types (keep : gset string) (flat : pydict flat_node).

Lemma clean_step_kept keep (acc : pydict json) key val :
  clean_step keep acc (key, val)
  = if decide (kept keep val) then dict_set acc key val else acc.
Proof.
  destruct (decide (kept keep val)) as [Hk|Hk];
    unfold kept in Hk; unfold clean_step;
    destruct (as_reference val) as [p|]; try done;
    by destruct (decide (p ∈ keep)).
Qed.

Lemma clean_inputs_acc keep (ins acc : pydict json) :
  NoDup (dict_keys acc ++ dict_keys ins) →
  foldl (clean_step keep) acc ins
  = acc ++ filter (λ kv, kept keep kv.2) ins.
Proof.
  revert acc. induction ins as [|[key val] ins IH]; intros acc Hnd.
  - simpl. by rewrite app_nil_r.
  - assert (Hfresh : key ∉ dict_keys acc).
    { apply NoDup_app in Hnd as (_ & Hd & _). intros Hin.
      apply (Hd _ Hin). by left. }
    assert (Hnext : NoDup (dict_keys (acc ++ [(key, val)]) ++ dict_keys ins)).
    { unfold dict_keys in *. rewrite fmap_app, <- app_assoc. exact Hnd. }
    assert (Hskip : NoDup (dict_keys acc ++ dict_keys ins)).
    { unfold dict_keys in *. simpl in Hnd.
      apply NoDup_app in Hnd as (Ha & Hd & Hi).
      apply NoDup_cons in Hi as [_ Hi].
      apply NoDup_app. split_and!; [done| |done].
      intros x Hx Hx'. apply (Hd x Hx). by right. }
    rewrite filter_cons. cbn [foldl]. rewrite clean_step_kept. simpl.
    destruct (decide (kept keep val)) as [Hp|Hp].
    + rewrite dict_set_fresh by done. rewrite IH by done.
      by rewrite <- app_assoc.
    + by rewrite IH.
Qed.

(** On a dictionary the loop of lines 16-22 is a filter. *)
Lemma clean_inputs_filter keep (ins : pydict json) :
  dict_wf ins → clean_inputs keep ins = filter (λ kv, kept keep kv.2) ins.
Proof.
  intros Hwf. unfold clean_inputs. by rewrite clean_inputs_acc.
Qed.

Lemma select_acc keep (d acc : pydict loc) :
  NoDup (dict_keys acc ++ dict_keys d) →
  foldl (fun out '(nid, l) =>
           if decide (nid ∈ keep) then dict_set out nid l else out) acc d
  = acc ++ filter (λ kv, kv.1 ∈ keep) d.
Proof.
  revert acc. induction d as [|[nid l] d IH]; intros acc Hnd.
  - simpl. by rewrite app_nil_r.
  - assert (Hfresh : nid ∉ dict_keys acc).
    { apply NoDup_app in Hnd as (_ & Hd & _). intros Hin.
      apply (Hd _ Hin). by left. }
    assert (Hnext : NoDup (dict_keys (acc ++ [(nid, l)]) ++ dict_keys d)).
    { unfold dict_keys in *. rewrite fmap_app, <- app_assoc. exact Hnd. }
    assert (Hskip : NoDup (dict_keys acc ++ dict_keys d)).
    { unfold dict_keys in *. simpl in Hnd.
      apply NoDup_app in Hnd as (Ha & Hd & Hi).
      apply NoDup_cons in Hi as [_ Hi].
      apply NoDup_app. split_and!; [done| |done].
      intros x Hx Hx'. apply (Hd x Hx). by right. }
    rewrite filter_cons. cbn [foldl]. simpl.
    destruct (decide (nid ∈ keep)) as [Hp|Hp].
    + rewrite dict_set_fresh by done. rewrite IH by done.
      by rewrite <- app_assoc.
    + by rewrite IH.
Qed.

Lemma select_filter keep (d : pydict loc) :
  dict_wf d → select keep d = filter (λ kv, kv.1 ∈ keep) d.
Proof. intros Hwf. unfold select. by rewrite select_acc. Qed.
End ExtractFacts.

(** ** The heap of [build]: which objects the loop of lines 14-23 rewrites *)

Section BuildHeap.
Implicit Types (keep : gset string) (flat : pydict flat_node)
  (h : list flat_node) (d : pydict loc).

Lemma load_from_keys n flat : dict_keys (load_from n flat) = dict_keys flat.
Proof.
  unfold dict_keys. revert n.
  induction flat as [|[k node] flat IH]; intros n; simpl; [done|].
  by rewrite IH.
Qed.

Lemma load_from_locs n flat : (load_from n flat).*2 = seq n (length flat).
Proof.
  revert n. induction flat as [|[k node] flat IH]; intros n; simpl; [done|].
  by rewrite IH.
Qed.

Lemma load_from_elem n flat k l :
  (k, l) ∈ load_from n flat →
  ∃ i node, l = (n + i)%nat ∧ flat !! i = Some (k, node).
Proof.
  revert n. induction flat as [|[k' node] flat IH]; intros n; simpl.
  - by intros ?%elem_of_nil.
  - intros [[= -> ->]|Hin]%elem_of_cons.
    + exists 0%nat, node. split; [lia|done].
    + destruct (IH _ Hin) as (i & node' & -> & Hi).
      exists (S i), node'. split; [lia|done].
Qed.

Lemma load_from_lookup n flat i k node :
  flat !! i = Some (k, node) → (k, (n + i)%nat) ∈ load_from n flat.
Proof.
  revert n i. induction flat as [|[k' node'] flat IH]; intros n i; [done|].
  destruct i as [|i]; simpl.
  - intros [= -> ->]. rewrite Nat.add_0_r. by left.
  - intros Hi. right. replace (n + S i)%nat with (S n + i)%nat by lia.
    by apply IH.
Qed.

Lemma prune_at_lookup keep h l l' :
  prune_at keep h l !! l'
  = if decide (l' = l) then prune_node keep <$> h !! l' else h !! l'.
Proof.
  unfold prune_at. destruct (decide (l' = l)) as [->|Hne].
  - destruct (h !! l) as [node|] eqn:Hl; [|by rewrite Hl].
    rewrite list_lookup_insert_eq by (by eapply lookup_lt_Some). done.
  - destruct (h !! l) as [node|]; [|done].
    by rewrite list_lookup_insert_ne.
Qed.

Lemma prune_all_lookup keep d h l' :
  NoDup d.*2 →
  foldl (fun h '(_, l) => prune_at keep h l) h d !! l'
  = if decide (l' ∈ d.*2) then prune_node keep <$> h !! l' else h !! l'.
Proof.
  revert h. induction d as [|[k l] d IH]; intros h Hnd.
  - simpl. destruct (decide (l' ∈ [])) as [Hin|]; [by apply elem_of_nil in Hin|done].
  - rewrite fmap_cons in Hnd. apply NoDup_cons in Hnd as [Hl Hnd].
    cbn [foldl]. rewrite IH, prune_at_lookup by done.
    rewrite fmap_cons. cbn [snd] in *.
    repeat case_decide; subst; try done; exfalso; set_solver.
Qed.

Lemma json_dump_load (g : string → flat_node → flat_node) flat n h :
  (∀ i k node, flat !! i = Some (k, node) →
               h !! (n + i)%nat = Some (g k node)) →
  json_dump h (load_from n flat) = (λ kn, (kn.1, g kn.1 kn.2)) <$> flat.
Proof.
  revert n. induction flat as [|[k node] flat IH]; intros n Hh; [done|].
  cbn [load_from json_dump fmap list_fmap]. pose proof (Hh 0%nat k node eq_refl) as H0.
  rewrite Nat.add_0_r in H0. rewrite H0. cbn [fst snd]. f_equal.
  apply IH. intros i k' node' Hi.
  replace (S n + i)%nat with (n + S i)%nat by lia. by apply Hh.
Qed.

Lemma json_dump_filter_load keep (g : string → flat_node → flat_node)
    flat n h :
  (∀ i k node, flat !! i = Some (k, node) → k ∈ keep →
               h !! (n + i)%nat = Some (g k node)) →
  json_dump h (filter (λ kv, kv.1 ∈ keep) (load_from n flat))
  = (λ kn, (kn.1, g kn.1 kn.2)) <$> filter (λ kn, kn.1 ∈ keep) flat.
Proof.
  revert n. induction flat as [|[k node] flat IH]; intros n Hh; [done|].
  cbn [load_from]. rewrite !filter_cons. cbn [fst].
  assert (Hrest : json_dump h (filter (λ kv, kv.1 ∈ keep) (load_from (S n) flat))
                  = (λ kn, (kn.1, g kn.1 kn.2)) <$> filter (λ kn, kn.1 ∈ keep) flat).
  { apply IH. intros i k' node' Hi.
    replace (S n + i)%nat with (n + S i)%nat by lia. by apply Hh. }
  destruct (decide (k ∈ keep)) as [Hk|Hk]; [|done].
  cbn [json_dump fmap list_fmap]. pose proof (Hh 0%nat k node eq_refl Hk) as H0.
  rewrite Nat.add_0_r in H0. rewrite H0. cbn [fst snd]. f_equal. exact Hrest.
Qed.

(** Which locations [out] holds for a freshly loaded document. *)
Lemma selected_locs keep flat i k node :
  dict_wf flat → flat !! i = Some (k, node) →
  i ∈ (filter (λ kv, kv.1 ∈ keep) (load_from 0 flat)).*2 ↔ k ∈ keep.
Proof.
  intros Hwf Hi. split.
  - intros ([k' l] & -> & [Hk' Hin]%list_elem_of_filter)%list_elem_of_fmap.
    simpl in *. apply load_from_elem in Hin as (j & node' & -> & Hj).
    simpl in *. by simplify_eq.
  - intros Hk. apply list_elem_of_fmap. exists (k, i). split; [done|].
    apply list_elem_of_filter. split; [done|].
    by apply (load_from_lookup 0 flat i k node).
Qed.

Lemma selected_locs_NoDup keep flat :
  NoDup (filter (λ kv, kv.1 ∈ keep) (load_from 0 flat)).*2.
Proof.
  eapply sublist_NoDup; [|apply fmap_sublist, sublist_filter].
  rewrite load_from_locs. apply NoDup_seq.
Qed.

Lemma build_heap_lookup keep flat i k node :
  dict_wf flat → flat !! i = Some (k, node) →
  heap (build keep (json_load flat)).2 !! i
  = Some (if decide (k ∈ keep) then prune_node keep node else node).
Proof.
  intros Hwf Hi. unfold build, json_load. cbn [snd heap prompt].
  rewrite select_filter by (by unfold dict_wf; rewrite load_from_keys).
  rewrite prune_all_lookup by apply selected_locs_NoDup.
  rewrite list_lookup_fmap, Hi. cbn [fmap option_fmap option_map snd].
  destruct (decide (k ∈ keep)) as [Hk|Hk];
    destruct (decide (i ∈ _)) as [Hin|Hin]; try done.
  - exfalso. apply Hin. by eapply selected_locs.
  - exfalso. apply Hk. by eapply selected_locs.
Qed.

(** The written document, as a function of the loaded one. *)
Lemma extract_spec flat keep :
  dict_wf flat →
  extract flat keep
  = (λ kn, (kn.1, prune_node keep kn.2)) <$> filter (λ kn, kn.1 ∈ keep) flat.
Proof.
  intros Hwf. unfold extract.
  pose proof (build_heap_lookup keep flat) as Hh.
  unfold build, json_load in *. cbn [fst snd heap prompt] in *.
  rewrite select_filter in * by (by unfold dict_wf; rewrite load_from_keys).
  apply (json_dump_filter_load keep (λ _ node, prune_node keep node)).
  intros i k node Hi Hk. change (0 + i)%nat with i.
  rewrite (Hh i k node Hwf Hi). by destruct (decide (k ∈ keep)).
Qed.

(** What the caller's [prompt] holds afterwards. *)
Lemma prompt_after_spec flat keep :
  dict_wf flat →
  prompt_after flat keep
  = (λ kn, (kn.1, if decide (kn.1 ∈ keep)
                  then prune_node keep kn.2 else kn.2)) <$> flat.
Proof.
  intros Hwf. unfold prompt_after.
  pose proof (build_heap_lookup keep flat) as Hh.
  unfold build, json_load in *. cbn [fst snd heap prompt] in *.
  pose (g := fun (k : string) (node : flat_node) =>
               if decide (k ∈ keep) then prune_node keep node else node).
  apply (json_dump_load g).
  intros i k node Hi. change (0 + i)%nat with i. by apply Hh.
Qed.
End BuildHeap.

(** ** Lookups in an extracted document *)

Ltac by_compute := apply (bool_decide_unpack _); vm_compute; exact I.

Section ExtractLookup.
Implicit Types (keep : gset string) (flat : pydict flat_node).

Lemma dict_get_fmap {A B} (f : A → B) (d : pydict A) k :
  dict_get ((λ kv, (kv.1, f kv.2)) <$> d) k = f <$> dict_get d k.
Proof.
  induction d as [|[k' v] d IH]; [done|]. cbn [fmap list_fmap dict_get fst snd].
  destruct (String.eqb k' k); [done|]. exact IH.
Qed.

Lemma dict_get_filter_key {A} keep (d : pydict A) k :
  dict_get (filter (λ kv, kv.1 ∈ keep) d) k
  = if decide (k ∈ keep) then dict_get d k else None.
Proof.
  induction d as [|[k' v] d IH].
  - by destruct (decide (k ∈ keep)).
  - rewrite filter_cons. cbn [fst].
    destruct (decide (k' ∈ keep)) as [Hk'|Hk']; cbn [dict_get];
      destruct (String.eqb_spec k' k) as [->|Hne]; try done.
    + by destruct (decide (k ∈ keep)).
    + rewrite IH. by destruct (decide (k ∈ keep)).
Qed.

Lemma dict_keys_filter_val {A} (P : A → Prop) `{∀ x, Decision (P x)}
    (d : pydict A) k :
  k ∈ dict_keys (filter (λ kv, P kv.2) d) → k ∈ dict_keys d.
Proof.
  unfold dict_keys.
  intros ([k' v] & -> & [_ Hin]%list_elem_of_filter)%list_elem_of_fmap.
  by apply (list_elem_of_fmap_2 fst) in Hin.
Qed.

Lemma dict_get_filter_val {A} (P : A → Prop) `{∀ x, Decision (P x)}
    (d : pydict A) k v :
  dict_wf d → dict_get d k = Some v →
  dict_get (filter (λ kv, P kv.2) d) k = if decide (P v) then Some v else None.
Proof.
  unfold dict_wf, dict_keys.
  induction d as [|[k' v'] d IH]; [done|].
  rewrite fmap_cons. intros [Hk Hd]%NoDup_cons. cbn [dict_get].
  rewrite filter_cons. cbn [snd fst] in *.
  destruct (String.eqb_spec k' k) as [->|Hne].
  - intros [= ->]. destruct (decide (P v)) as [Hp|Hp]; cbn [dict_get].
    + by rewrite String.eqb_refl.
    + apply dict_get_None. intros Hin. apply Hk.
      by eapply dict_keys_filter_val.
  - intros Hget. destruct (decide (P v')); cbn [dict_get].
    + destruct (String.eqb_spec k' k); [done|]. by apply IH.
    + by apply IH.
Qed.

Lemma dict_wf_filter {A} (P : string * A → Prop) `{∀ x, Decision (P x)}
    (d : pydict A) :
  dict_wf d → dict_wf (filter P d).
Proof.
  unfold dict_wf, dict_keys. intros Hwf.
  eapply sublist_NoDup; [exact Hwf|]. apply fmap_sublist, sublist_filter.
Qed.

Lemma dict_keys_fmap {A B} (f : A → B) (d : pydict A) :
  dict_keys ((λ kv, (kv.1, f kv.2)) <$> d) = dict_keys d.
Proof.
  unfold dict_keys. rewrite <- list_fmap_compose. by apply list_fmap_ext.
Qed.

Lemma extract_keys flat keep nid :
  dict_wf flat →
  nid ∈ dict_keys (extract flat keep) ↔ nid ∈ keep ∧ nid ∈ dict_keys flat.
Proof.
  intros Hwf. rewrite extract_spec, dict_keys_fmap by done.
  unfold dict_keys. rewrite !list_elem_of_fmap. split.
  - intros ([k n] & -> & [Hk Hin]%list_elem_of_filter). split; [done|].
    by exists (k, n).
  - intros (Hk & [k n] & -> & Hin). exists (k, n). split; [done|].
    by apply list_elem_of_filter.
Qed.

Lemma extract_elem flat keep nid node' :
  dict_wf flat →
  (nid, node') ∈ extract flat keep ↔
  nid ∈ keep ∧ ∃ node, (nid, node) ∈ flat ∧ node' = prune_node keep node.
Proof.
  intros Hwf. rewrite extract_spec by done. rewrite list_elem_of_fmap. split.
  - intros ([k n] & [= -> ->] & [Hk Hin]%list_elem_of_filter).
    split; [done|]. by exists n.
  - intros (Hk & node & Hin & ->). exists (nid, node). split; [done|].
    by apply list_elem_of_filter.
Qed.

Lemma extract_get flat keep nid :
  dict_wf flat →
  dict_get (extract flat keep) nid
  = if decide (nid ∈ keep) then prune_node keep <$> dict_get flat nid else None.
Proof.
  intros Hwf. rewrite extract_spec by done.
  rewrite (dict_get_fmap (prune_node keep)), dict_get_filter_key.
  by destruct (decide (nid ∈ keep)).
Qed.

Lemma flat_wf_inputs flat nid node :
  flat_wf flat → (nid, node) ∈ flat → dict_wf (inputs node).
Proof.
  intros [_ Hin] Hel. rewrite Forall_forall in Hin. exact (Hin _ Hel).
Qed.

Lemma extract_wf flat keep : flat_wf flat → flat_wf (extract flat keep).
Proof.
  intros Hwf. pose proof Hwf as [Hd Hi]. split.
  - unfold dict_wf. rewrite extract_spec, dict_keys_fmap by done.
    by apply dict_wf_filter.
  - apply Forall_forall. intros [nid node'] Hel. cbn [snd].
    apply extract_elem in Hel as (Hk & node & Hin & ->); [|done].
    unfold prune_node. cbn [with_inputs inputs].
    rewrite clean_inputs_filter by (by eapply flat_wf_inputs).
    apply dict_wf_filter. by eapply flat_wf_inputs.
Qed.
End ExtractLookup.

(** ** The extractor: claims *)

Section ExtractClaims.
Implicit Types (keep : gset string) (flat : pydict flat_node).

Lemma kept_mono keep1 keep2 val :
  keep2 ⊆ keep1 → kept keep2 val → kept keep1 val.
Proof.
  unfold kept. destruct (as_reference val); [|done]. set_solver.
Qed.

Lemma prune_node_nested keep1 keep2 node :
  dict_wf (inputs node) → keep2 ⊆ keep1 →
  prune_node keep2 (prune_node keep1 node) = prune_node keep2 node.
Proof.
  intros Hwf Hsub. unfold prune_node, with_inputs. cbn [inputs class_type].
  f_equal. rewrite (clean_inputs_filter keep1) by done.
  rewrite !clean_inputs_filter by (done || by apply dict_wf_filter).
  apply list_filter_filter_l. intros [nm val]. by apply kept_mono.
Qed.

Lemma extract_nested_list keep1 keep2 flat :
  Forall (λ kn, dict_wf (inputs kn.2)) flat → keep2 ⊆ keep1 →
  (λ kn, (kn.1, prune_node keep2 kn.2)) <$>
    filter (λ kn, kn.1 ∈ keep2)
      ((λ kn, (kn.1, prune_node keep1 kn.2)) <$> filter (λ kn, kn.1 ∈ keep1) flat)
  = (λ kn, (kn.1, prune_node keep2 kn.2)) <$> filter (λ kn, kn.1 ∈ keep2) flat.
Proof.
  intros Hwf Hsub. induction Hwf as [|[k n] flat Hn Hwf IH]; [done|].
  rewrite !(filter_cons _ (k, n)). cbn [fst snd] in *.
  destruct (decide (k ∈ keep1)) as [H1|H1];
    destruct (decide (k ∈ keep2)) as [H2|H2].
  - rewrite !fmap_cons, filter_cons. cbn [fst snd].
    destruct (decide (k ∈ keep2)); [|done].
    rewrite fmap_cons. cbn [fst snd]. rewrite prune_node_nested by done.
    by rewrite IH.
  - rewrite fmap_cons, filter_cons. cbn [fst snd].
    by destruct (decide (k ∈ keep2)).
  - exfalso. apply H1. by apply Hsub.
  - done.
Qed.

(** C5. Subset monotonicity: for keep-sets with [keep2 ⊆ keep1],
    extracting [keep2] from a flattened graph gives the same document as
    extracting [keep1] first and [keep2] from the result, [extract] being
    the map-to-map function one run of the extractor computes. *)
Theorem C5_extract_monotone flat keep1 keep2 :
  flat_wf flat → keep2 ⊆ keep1 →
  extract flat keep2 = extract (extract flat keep1) keep2.
Proof.
  intros Hwf Hsub. pose proof (extract_wf flat keep1 Hwf) as [Hwf1 _].
  destruct Hwf as [Hd Hi].
  rewrite (extract_spec (extract flat keep1)) by done.
  rewrite !(extract_spec flat) by done.
  symmetry. by apply extract_nested_list.
Qed.

Lemma two_nodes_wf : flat_wf two_nodes.
Proof. unfold flat_wf, dict_wf. by_compute. Defined.

Lemma lone_node_wf : flat_wf lone_node.
Proof. unfold flat_wf, dict_wf. by_compute. Defined.

Lemma C5_extract_monotone_witness :
  flat_wf two_nodes ∧ ({["9"]} : gset string) ⊆ i2v_ids ∧
  extract two_nodes {["9"]} = extract (extract two_nodes i2v_ids) {["9"]}.
Proof.
  assert (Hsub : ({["9"]} : gset string) ⊆ i2v_ids) by by_compute.
  split; [exact two_nodes_wf|]. split; [exact Hsub|].
  exact (C5_extract_monotone two_nodes i2v_ids {["9"]} two_nodes_wf Hsub).
Defined.
End ExtractClaims.

Section ExtractShape.
Implicit Types (keep : gset string) (flat : pydict flat_node).

Lemma as_reference_Some val p :
  as_reference val = Some p ↔ ∃ x, val = JList [JStr p; x].
Proof.
  split.
  - unfold as_reference. intros Hr. repeat case_match; simplify_eq. eauto.
  - by intros [x ->].
Qed.

Lemma as_reference_None val :
  as_reference val = None ↔ ∀ p x, val ≠ JList [JStr p; x].
Proof.
  split.
  - intros Hn p x ->. done.
  - intros Hne. destruct (as_reference val) as [p|] eqn:Hr; [|done].
    apply as_reference_Some in Hr as [x ->]. by destruct (Hne p x).
Qed.

Lemma prune_node_get keep node nm :
  dict_wf (inputs node) →
  dict_get (inputs (prune_node keep node)) nm
  = match dict_get (inputs node) nm with
    | Some val => if decide (kept keep val) then Some val else None
    | None => None
    end.
Proof.
  intros Hwf. unfold prune_node. cbn [with_inputs inputs].
  rewrite clean_inputs_filter by done.
  destruct (dict_get (inputs node) nm) as [val|] eqn:Hget.
  - by apply (dict_get_filter_val (kept keep)).
  - apply dict_get_None. intros Hin.
    apply (dict_keys_filter_val (kept keep)) in Hin.
    by apply dict_get_None in Hget.
Qed.

Lemma prune_node_elem keep node nm val :
  dict_wf (inputs node) →
  (nm, val) ∈ inputs (prune_node keep node) ↔
  (nm, val) ∈ inputs node ∧ kept keep val.
Proof.
  intros Hwf. unfold prune_node. cbn [with_inputs inputs].
  rewrite clean_inputs_filter by done. rewrite list_elem_of_filter.
  cbn [snd]. tauto.
Qed.

(** C10. The extractor tells a Reference from a literal by shape alone:
    an input of a retained node whose value is a two-element list with a
    string first, whatever its second element, stays exactly when that
    string is in the keep-set and is absent otherwise; an input of any
    other shape is kept as it is. *)
Theorem C10_reference_by_shape flat keep nid node :
  flat_wf flat → dict_get flat nid = Some node → nid ∈ keep →
  ∃ node', dict_get (extract flat keep) nid = Some node' ∧
    (∀ nm p x, dict_get (inputs node) nm = Some (JList [JStr p; x]) →
       dict_get (inputs node') nm
       = if decide (p ∈ keep) then Some (JList [JStr p; x]) else None) ∧
    (∀ nm val, dict_get (inputs node) nm = Some val →
       (∀ p x, val ≠ JList [JStr p; x]) →
       dict_get (inputs node') nm = Some val).
Proof.
  intros Hwf Hget Hk. exists (prune_node keep node).
  assert (Hin : dict_wf (inputs node)).
  { eapply flat_wf_inputs; [done|]. by apply dict_get_Some_elem. }
  destruct Hwf as [Hd _]. split_and!.
  - rewrite extract_get, Hget by done. by destruct (decide (nid ∈ keep)).
  - intros nm p x Hnm. rewrite prune_node_get, Hnm by done.
    unfold kept. cbn [as_reference].
    by destruct (decide (p ∈ keep)).
  - intros nm val Hnm Hshape. rewrite prune_node_get, Hnm by done.
    apply as_reference_None in Hshape.
    destruct (decide (kept keep val)) as [|Hn]; [done|].
    exfalso. apply Hn. unfold kept. by rewrite Hshape.
Qed.

Lemma shapes_wf : flat_wf shapes.
Proof. unfold flat_wf, dict_wf. by_compute. Defined.

Lemma C10_reference_by_shape_witness :
  flat_wf shapes ∧ dict_get shapes "n" = Some shapes_node ∧
  "n" ∈ ({["n"]} : gset string) ∧
  ∃ node', dict_get (extract shapes {["n"]}) "n" = Some node' ∧
    dict_get (inputs node') "ref_in"
    = Some (JList [JStr "n"; JStr "not a slot"]) ∧
    dict_get (inputs node') "ref_out" = None ∧
    dict_get (inputs node') "pair" = Some (JList [JInt 1; JInt 2]).
Proof.
  assert (Hk : "n" ∈ ({["n"]} : gset string)) by by_compute.
  split; [exact shapes_wf|]. split; [reflexivity|]. split; [exact Hk|].
  destruct (C10_reference_by_shape shapes {["n"]} "n" shapes_node
              shapes_wf eq_refl Hk) as (node' & Hn & Href & Hlit).
  exists node'. split; [exact Hn|]. split_and!.
  - exact (Href "ref_in" "n" (JStr "not a slot") eq_refl).
  - exact (Href "ref_out" "gone" JNull eq_refl).
  - apply Hlit; [reflexivity|]. intros p x. discriminate.
Defined.
End ExtractShape.

Section ExtractSound.
Implicit Types (keep : gset string) (flat : pydict flat_node).

(** C4 (as amended). The extraction's key set is exactly
    [keep ∩ keys flat]; every input of the result whose value has the
    shape of a Reference (a two-element list with a string first) has
    that string in [keep], hence in the result's key set whenever it is
    a key of [flat] -- in particular the result has no dangling
    Reference when [flat] has none.  Of the inputs of a retained node,
    one whose value does not have that shape is kept unmodified; one
    whose value has it, a Reference or a literal that looks like one, is
    kept unmodified when its string is in [keep] and is absent
    otherwise. *)
Theorem C4_extract_sound flat keep :
  flat_wf flat →
  (∀ nid, nid ∈ dict_keys (extract flat keep)
          ↔ nid ∈ keep ∧ nid ∈ dict_keys flat) ∧
  (∀ nid node' nm val p,
     (nid, node') ∈ extract flat keep → (nm, val) ∈ inputs node' →
     as_reference val = Some p →
     p ∈ keep ∧ (p ∈ dict_keys flat → p ∈ dict_keys (extract flat keep))) ∧
  (closed_refs flat → closed_refs (extract flat keep)) ∧
  (∀ nid node, dict_get flat nid = Some node → nid ∈ keep →
     ∃ node', dict_get (extract flat keep) nid = Some node' ∧
       class_type node' = class_type node ∧
       (∀ nm val, dict_get (inputs node) nm = Some val →
          dict_get (inputs node') nm
          = match as_reference val with
            | Some p => if decide (p ∈ keep) then Some val else None
            | None => Some val
            end) ∧
       (∀ nm, dict_get (inputs node) nm = None →
          dict_get (inputs node') nm = None)).
Proof.
  intros Hwf. pose proof Hwf as [Hd Hi].
  assert (Hrefs : ∀ nid node' nm val p,
             (nid, node') ∈ extract flat keep → (nm, val) ∈ inputs node' →
             as_reference val = Some p →
             p ∈ keep ∧ ∃ node, (nid, node) ∈ flat ∧ (nm, val) ∈ inputs node).
  { intros nid node' nm val p Hel Hin Hr.
    apply extract_elem in Hel as (Hk & node & Hnode & ->); [|done].
    apply prune_node_elem in Hin as [Hin Hkept];
      [|by eapply flat_wf_inputs].
    unfold kept in Hkept. rewrite Hr in Hkept. split; [done|].
    by exists node. }
  split_and!.
  - intros nid. by apply extract_keys.
  - intros nid node' nm val p Hel Hin Hr.
    destruct (Hrefs _ _ _ _ _ Hel Hin Hr) as [Hp _]. split; [done|].
    intros Hkey. by apply extract_keys.
  - intros Hclosed nid node' nm val p Hel Hin Hr.
    destruct (Hrefs _ _ _ _ _ Hel Hin Hr) as (Hp & node & Hnode & Hval).
    apply extract_keys; [done|]. split; [done|].
    by eapply Hclosed.
  - intros nid node Hget Hk. exists (prune_node keep node).
    assert (Hin : dict_wf (inputs node)).
    { eapply flat_wf_inputs; [done|]. by apply dict_get_Some_elem. }
    split_and!.
    + rewrite extract_get, Hget by done. by destruct (decide (nid ∈ keep)).
    + done.
    + intros nm val Hnm. rewrite prune_node_get, Hnm by done.
      destruct (decide (kept keep val)) as [Hkept|Hkept];
        unfold kept in Hkept; destruct (as_reference val) as [p|];
        try done; by destruct (decide (p ∈ keep)).
    + intros nm Hnm. by rewrite prune_node_get, Hnm.
Qed.

Lemma C4_extract_sound_witness :
  flat_wf two_nodes ∧
  (∀ nid, nid ∈ dict_keys (extract two_nodes i2v_ids)
          ↔ nid ∈ i2v_ids ∧ nid ∈ dict_keys two_nodes).
Proof.
  split; [exact two_nodes_wf|].
  exact (proj1 (C4_extract_sound two_nodes i2v_ids two_nodes_wf)).
Defined.

(** C4 as first stated fails twice.  With ["b"] in the keep-set but not
    in the document, the Reference to ["b"] survives although ["b"] is no
    key of the result.  And a literal that is a pair of strings, which no
    Reference is for want of an integer slot, is not kept: it is absent
    from the retained node. *)
Lemma C4_counterexample :
  (flat_wf lone_node ∧
   extract lone_node {["a"; "b"]} = lone_node ∧
   ¬ closed_refs (extract lone_node {["a"; "b"]})) ∧
  (flat_wf literal_pair ∧
   (∀ p slot, JList [JStr "euler"; JStr "normal"] ≠ reference p slot) ∧
   dict_get literal_pair "k"
   = Some {| class_type := JStr "KSampler";
             inputs := [("pair", JList [JStr "euler"; JStr "normal"]);
                        ("steps", JInt 4)] |} ∧
   extract literal_pair {["k"]}
   = [("k", {| class_type := JStr "KSampler";
               inputs := [("steps", JInt 4)] |})]).
Proof.
  split.
  - assert (He : extract lone_node {["a"; "b"]} = lone_node)
      by (vm_compute; reflexivity).
    split; [exact lone_node_wf|]. split; [exact He|].
    rewrite He. intros Hc.
    specialize (Hc "a" {| class_type := JStr "A";
                          inputs := [("x", reference "b" 0)] |}
                  "x" (reference "b" 0) "b").
    assert (Hb : "b" ∈ dict_keys lone_node).
    { apply Hc; [by left|by left|reflexivity]. }
    vm_compute in Hb. apply elem_of_cons in Hb as [Hb|Hb]; [done|].
    by apply elem_of_nil in Hb.
  - split_and!.
    + unfold flat_wf, dict_wf. by_compute.
    + intros p slot. unfold reference. discriminate.
    + reflexivity.
    + vm_compute. reflexivity.
Qed.

(** C1. Subset extraction is meant to leave its input as it was, so that
    variants are cut independently from one source map.  [build] does
    not: after [build(i2v_ids)] the selected node "9" of [prompt] has lost
    its Reference to "28", and the document then written for [t2v_ids]
    lacks it too, although a fresh extraction of [t2v_ids] keeps it. *)
Theorem C1_build_rewrites_prompt :
  flat_wf two_nodes ∧
  dict_get two_nodes "9"
  = Some {| class_type := JStr "CLIPTextEncode";
            inputs := [("clip", reference "28" 0); ("text", JStr "hi")] |} ∧
  dict_get (prompt_after two_nodes i2v_ids) "9"
  = Some {| class_type := JStr "CLIPTextEncode";
            inputs := [("text", JStr "hi")] |} ∧
  prompt_after two_nodes i2v_ids ≠ two_nodes ∧
  extract two_nodes t2v_ids = two_nodes ∧
  dict_get (build_all two_nodes).2 "9"
  = Some {| class_type := JStr "CLIPTextEncode";
            inputs := [("text", JStr "hi")] |}.
Proof.
  split; [exact two_nodes_wf|]. split; [reflexivity|].
  split; [vm_compute; reflexivity|]. split; [|split; vm_compute; reflexivity].
  intros Heq. apply (f_equal (λ d, dict_get d "9")) in Heq.
  vm_compute in Heq. discriminate Heq.
Qed.

(** In general [build] leaves in [prompt] the pruned version of every
    node it selected. *)
Lemma build_frame flat keep nid :
  dict_wf flat →
  dict_get (prompt_after flat keep) nid
  = (λ node, if decide (nid ∈ keep) then prune_node keep node else node)
      <$> dict_get flat nid.
Proof.
  intros Hwf. rewrite prompt_after_spec by done.
  induction flat as [|[k n] flat IH]; [done|].
  cbn [fmap list_fmap dict_get fst snd].
  destruct (String.eqb_spec k nid) as [->|Hne]; [done|].
  apply IH. unfold dict_wf, dict_keys in *. rewrite fmap_cons in Hwf.
  by apply NoDup_cons in Hwf as [_ ?].
Qed.
End ExtractSound.

(** ** The binding loop of the compiler *)

Section BindFacts.
Context (table : gmap Z link_row) (widgets : json)
  (mapping : option (pydict json)).
Implicit Types (st : pydict json * nat) (inp : port) (inps : list port).

Local Abbreviation step := (bind_input table widgets mapping).
Local Abbreviation run := (bind_inputs table widgets mapping).

Lemma bind_inputs_cons st inp inps :
  run st (inp :: inps) = (st' ← step st inp; run st' inps).
Proof. done. Qed.

Lemma bind_inputs_cons_Ok st inp inps st3 :
  run st (inp :: inps) = Ok st3 →
  ∃ st2, step st inp = Ok st2 ∧ run st2 inps = Ok st3.
Proof.
  rewrite bind_inputs_cons. destruct (step st inp) as [st2|e]; [|done].
  intros H. by exists st2.
Qed.

Lemma bind_inputs_app_Ok st pre post st3 :
  run st (pre ++ post) = Ok st3 →
  ∃ st1, run st pre = Ok st1 ∧ run st1 post = Ok st3.
Proof.
  revert st. induction pre as [|inp pre IH]; intros st.
  - intros H. by exists st.
  - rewrite <- app_comm_cons. intros (st2 & H2 & Hrest)%bind_inputs_cons_Ok.
    destruct (IH _ Hrest) as (st1 & H1 & H3). exists st1. split; [|done].
    rewrite bind_inputs_cons, H2. exact H1.
Qed.

(** The loop body raises only on a declared link that is not in the
    table. *)
Lemma bind_input_Raise st inp e :
  step st inp = Raise e →
  ∃ lid, e = KeyError lid ∧ link inp = Some lid ∧ table !! lid = None.
Proof.
  destruct st as [ins idx]. unfold bind_input.
  destruct (link inp) as [lid|].
  - destruct (table !! lid) eqn:Hl; [done|]. intros [= <-]. by exists lid.
  - repeat case_match; done.
Qed.

Lemma bind_input_linked st inp lid l :
  link inp = Some lid → table !! lid = Some l →
  step st inp
  = Ok (dict_set st.1 (name inp) (reference (str_Z (src_node l)) (src_slot l)),
        if widget_flagged inp && is_list widgets then S st.2 else st.2).
Proof.
  destruct st as [ins idx]. unfold bind_input. by intros -> ->.
Qed.

Lemma bind_input_missing st inp lid :
  link inp = Some lid → table !! lid = None →
  step st inp = Raise (KeyError lid).
Proof.
  destruct st as [ins idx]. unfold bind_input. by intros -> ->.
Qed.

Lemma bind_input_override st inp v :
  link inp = None → widget_flagged inp = true →
  mapping_get mapping (name inp) = Some v →
  step st inp = Ok (dict_set st.1 (name inp) v, st.2).
Proof.
  destruct st as [ins idx]. unfold bind_input, widget_flagged.
  by intros -> -> ->.
Qed.

(** Only the entry under the port's own name can change. *)
Lemma bind_input_other st inp st' nm :
  step st inp = Ok st' → nm ≠ name inp →
  dict_get st'.1 nm = dict_get st.1 nm.
Proof.
  destruct st as [ins idx]. unfold bind_input. intros H Hne.
  repeat case_match; simplify_eq; cbn [fst];
    try done; by apply dict_get_set_ne.
Qed.

Lemma bind_inputs_other st inps st' nm :
  run st inps = Ok st' → nm ∉ name <$> inps →
  dict_get st'.1 nm = dict_get st.1 nm.
Proof.
  revert st. induction inps as [|inp inps IH]; intros st.
  - by intros [= ->].
  - intros (st2 & H2 & Hrest)%bind_inputs_cons_Ok.
    rewrite fmap_cons. intros [Hne Hnin]%not_elem_of_cons.
    rewrite (IH _ Hrest Hnin). by eapply bind_input_other.
Qed.

Lemma bind_inputs_Raise st inps e :
  run st inps = Raise e →
  ∃ inp lid, inp ∈ inps ∧ e = KeyError lid ∧ link inp = Some lid
             ∧ table !! lid = None.
Proof.
  revert st. induction inps as [|inp inps IH]; intros st; [done|].
  rewrite bind_inputs_cons. destruct (step st inp) as [st2|e'] eqn:Hs.
  - intros (inp' & lid & Hin & H)%IH. exists inp', lid.
    split; [by right|done].
  - intros [= ->]. apply bind_input_Raise in Hs as (lid & -> & Hl & Ht).
    exists inp, lid. split; [by left|done].
Qed.

Lemma bind_inputs_missing st inps inp lid :
  inp ∈ inps → link inp = Some lid → table !! lid = None →
  ∃ lid', run st inps = Raise (KeyError lid') ∧ table !! lid' = None.
Proof.
  intros Hin Hl Ht. destruct (run st inps) as [st'|e] eqn:Hrun.
  - exfalso. revert st Hrun. induction Hin as [inp inps|inp0 inp inps Hin IH];
      intros st (st2 & H2 & Hrest)%bind_inputs_cons_Ok.
    + by rewrite (bind_input_missing st inp lid) in H2.
    + by eapply IH.
  - apply bind_inputs_Raise in Hrun as (inp' & lid' & _ & -> & _ & Hn).
    by exists lid'.
Qed.

Lemma bind_inputs_present st inps :
  links_present table inps → ∃ st', run st inps = Ok st'.
Proof.
  intros Hp. destruct (run st inps) as [st'|e] eqn:Hrun; [by exists st'|].
  apply bind_inputs_Raise in Hrun as (inp & lid & Hin & -> & Hl & Hn).
  unfold links_present in Hp. rewrite Forall_forall in Hp.
  destruct (Hp inp Hin lid Hl) as [l Hsome]. congruence.
Qed.

(** What the whole loop leaves under the name of a port that no later
    port shares. *)
Lemma bind_inputs_last pre inp post st0 st3 :
  run st0 (pre ++ inp :: post) = Ok st3 → name inp ∉ name <$> post →
  ∃ st1 st2, run st0 pre = Ok st1 ∧ step st1 inp = Ok st2 ∧
             run st2 post = Ok st3 ∧
             dict_get st3.1 (name inp) = dict_get st2.1 (name inp).
Proof.
  intros (st1 & H1 & (st2 & H2 & H3)%bind_inputs_cons_Ok)%bind_inputs_app_Ok
    Hnin.
  exists st1, st2. split_and!; try done. by eapply bind_inputs_other.
Qed.
End BindFacts.

(** ** The positional cursor *)

Section Cursor.
Context (table : gmap Z link_row) (ws : list json)
  (mapping : option (pydict json)).
Implicit Types (st : pydict json * nat) (inp : port) (inps : list port).

Local Abbreviation step := (bind_input table (JList ws) mapping).
Local Abbreviation run := (bind_inputs table (JList ws) mapping).

Lemma count_ports_cons f inp inps :
  count_ports f (inp :: inps)
  = ((if f inp then 1 else 0) + count_ports f inps)%nat.
Proof. unfold count_ports. simpl. by destruct (f inp). Qed.

Lemma count_ports_app f pre post :
  count_ports f (pre ++ post) = (count_ports f pre + count_ports f post)%nat.
Proof.
  unfold count_ports. by rewrite List.filter_app, length_app.
Qed.

Lemma bind_input_cursor st inp st' :
  step st inp = Ok st' →
  st'.2 = (st.2 + if advances mapping inp then 1 else 0)%nat.
Proof.
  destruct st as [ins idx].
  unfold bind_input, advances, overridden, widget_flagged, linked.
  destruct (link inp) as [lid|]; [destruct (table !! lid); [|done]|];
    destruct (truthy_opt (widget inp));
    destruct (mapping_get mapping (name inp));
    cbn [andb negb is_list]; intros H;
    repeat case_match; simplify_eq; cbn [fst snd]; lia.
Qed.

Lemma bind_inputs_cursor st inps st' :
  run st inps = Ok st' →
  st'.2 = (st.2 + count_ports (advances mapping) inps)%nat.
Proof.
  revert st. induction inps as [|inp inps IH]; intros st.
  - intros [= ->]. unfold count_ports. simpl. lia.
  - intros (st2 & H2 & Hrest)%bind_inputs_cons_Ok.
    rewrite (IH _ Hrest), (bind_input_cursor _ _ _ H2), count_ports_cons.
    lia.
Qed.

Lemma bind_input_positional st inp :
  linked inp = false → widget_flagged inp = true →
  overridden mapping inp = false →
  step st inp
  = Ok (match ws !! st.2 with
        | Some v => dict_set st.1 (name inp) v
        | None => st.1
        end, S st.2).
Proof.
  destruct st as [ins idx].
  unfold bind_input, overridden, widget_flagged, linked.
  destruct (link inp); [done|]. intros _ ->.
  destruct (mapping_get mapping (name inp)); [done|]. intros _.
  cbn [fst snd]. by destruct (ws !! idx).
Qed.

Lemma bind_input_unflagged st inp :
  linked inp = false → widget_flagged inp = false → step st inp = Ok st.
Proof.
  destruct st as [ins idx]. unfold bind_input, widget_flagged, linked.
  destruct (link inp); [done|]. by intros _ ->.
Qed.

(** The state around the [k]-th port of a node whose port names are
    pairwise distinct. *)
Lemma bind_inputs_at inps k inp st3 :
  NoDup (name <$> inps) → inps !! k = Some inp →
  run ([], 0%nat) inps = Ok st3 →
  ∃ st1 st2,
    step st1 inp = Ok st2 ∧
    st1.2 = count_ports (advances mapping) (take k inps) ∧
    dict_get st1.1 (name inp) = None ∧
    dict_get st3.1 (name inp) = dict_get st2.1 (name inp).
Proof.
  intros Hnd Hk Hrun.
  rewrite <- (take_drop_middle inps k inp Hk) in Hrun, Hnd.
  rewrite fmap_app, fmap_cons in Hnd.
  apply NoDup_app in Hnd as (_ & Hpre & [Hpost _]%NoDup_cons).
  apply bind_inputs_last in Hrun as (st1 & st2 & H1 & H2 & H3 & Hget);
    [|done].
  exists st1, st2. split_and!; try done.
  - by rewrite (bind_inputs_cursor _ _ _ H1).
  - rewrite (bind_inputs_other _ _ _ _ _ _ _ H1); [done|].
    intros Hin. apply (Hpre _ Hin). by left.
Qed.

Lemma count_ports_take_lt f inps k inp :
  inps !! k = Some inp → f inp = true →
  (count_ports f (take k inps) < count_ports f inps)%nat.
Proof.
  intros Hk Hf. rewrite <- (take_drop_middle inps k inp Hk) at 2.
  rewrite count_ports_app, count_ports_cons, Hf. lia.
Qed.
End Cursor.

Section CursorClaims.
Implicit Types (table : gmap Z link_row) (node : raw_node).

Lemma compile_node_Ok table node e c :
  compile_node table node = Ok (e, c) →
  ∃ st, bind_inputs table (widgets_values node) (mapping_of node)
          ([], 0%nat) (node_inputs node) = Ok st
        ∧ e = {| class_type := node_type node; inputs := st.1 |} ∧ c = st.2.
Proof.
  unfold compile_node.
  destruct (bind_inputs _ _ _ _ _) as [st|err]; [|done].
  intros [= <- <-]. by exists st.
Qed.

Lemma advances_None inp : advances None inp = widget_flagged inp.
Proof.
  unfold advances, overridden. cbn [mapping_get].
  by rewrite andb_false_r, andb_true_r.
Qed.

Lemma count_ports_advances_None inps :
  count_ports (advances None) inps = count_ports widget_flagged inps.
Proof.
  induction inps as [|inp inps IH]; [done|].
  by rewrite !count_ports_cons, advances_None, IH.
Qed.

(** C2 (as amended). With a list of widgets the cursor ends at the
    number of widget-flagged ports that are linked or reach the
    positional fallback; a port bound by the type-specific override
    leaves it where it is.  An unlinked widget-flagged port outside the
    override gets the widget at the position counted over the ports
    before it, and nothing when that position is past the end of the
    list.  For a node without override the count runs over all
    widget-flagged ports, linked or not, so a list with one slot per
    widget-flagged port binds every unlinked one, in declared order. *)
Theorem C2_cursor_alignment table node ws e c :
  widgets_values node = JList ws →
  compile_node table node = Ok (e, c) →
  NoDup (name <$> node_inputs node) →
  c = count_ports (advances (mapping_of node)) (node_inputs node) ∧
  (∀ k inp, node_inputs node !! k = Some inp →
     linked inp = false → widget_flagged inp = true →
     overridden (mapping_of node) inp = false →
     dict_get (inputs e) (name inp)
     = ws !! count_ports (advances (mapping_of node))
               (take k (node_inputs node))) ∧
  (∀ k inp, node_inputs node !! k = Some inp →
     linked inp = false → widget_flagged inp = false →
     dict_get (inputs e) (name inp) = None) ∧
  (mapping_of node = None →
     c = count_ports widget_flagged (node_inputs node) ∧
     (∀ k inp, node_inputs node !! k = Some inp →
        linked inp = false → widget_flagged inp = true →
        dict_get (inputs e) (name inp)
        = ws !! count_ports widget_flagged (take k (node_inputs node))) ∧
     (length ws = count_ports widget_flagged (node_inputs node) →
      ∀ k inp, node_inputs node !! k = Some inp →
        linked inp = false → widget_flagged inp = true →
        is_Some (dict_get (inputs e) (name inp)))).
Proof.
  intros Hws (st3 & Hrun & -> & ->)%compile_node_Ok Hnd.
  rewrite Hws in Hrun. cbn [inputs].
  assert (Hpos : ∀ k inp, node_inputs node !! k = Some inp →
            linked inp = false → widget_flagged inp = true →
            overridden (mapping_of node) inp = false →
            dict_get st3.1 (name inp)
            = ws !! count_ports (advances (mapping_of node))
                      (take k (node_inputs node))).
  { intros k inp Hk Hl Hw Ho.
    destruct (bind_inputs_at _ _ _ _ _ _ _ Hnd Hk Hrun)
      as (st1 & st2 & H2 & Hc & Hnone & ->).
    rewrite bind_input_positional in H2 by done. simplify_eq.
    cbn [fst]. rewrite <- Hc.
    destruct (ws !! st1.2); [apply dict_get_set_eq|done]. }
  split_and!.
  - by rewrite (bind_inputs_cursor _ _ _ _ _ _ Hrun).
  - exact Hpos.
  - intros k inp Hk Hl Hw.
    destruct (bind_inputs_at _ _ _ _ _ _ _ Hnd Hk Hrun)
      as (st1 & st2 & H2 & Hc & Hnone & ->).
    rewrite bind_input_unflagged in H2 by done. by simplify_eq.
  - intros Hm. rewrite Hm in *.
    assert (Hov : ∀ inp, overridden None inp = false).
    { intros inp. unfold overridden. cbn [mapping_get].
      by rewrite andb_false_r. }
    split_and!.
    + by rewrite (bind_inputs_cursor _ _ _ _ _ _ Hrun),
        count_ports_advances_None.
    + intros k inp Hk Hl Hw.
      rewrite <- count_ports_advances_None. by apply Hpos.
    + intros Hlen k inp Hk Hl Hw.
      rewrite (Hpos k inp Hk Hl Hw (Hov inp)), count_ports_advances_None.
      apply lookup_lt_is_Some. rewrite Hlen.
      by eapply count_ports_take_lt.
Qed.

Lemma C2_cursor_alignment_witness :
  widgets_values aligned_node = JList [JInt 6; JInt 7] ∧
  NoDup (name <$> node_inputs aligned_node) ∧
  compile_node one_link aligned_node
  = Ok ({| class_type := JStr "T";
           inputs := [("a", reference "1" 0); ("b", JInt 7)] |}, 2%nat) ∧
  dict_get [("a", reference "1" 0); ("b", JInt 7)] "b"
  = [JInt 6; JInt 7] !! 1%nat.
Proof.
  assert (Hnd : NoDup (name <$> node_inputs aligned_node)) by by_compute.
  assert (Hrun : compile_node one_link aligned_node
                 = Ok ({| class_type := JStr "T";
                          inputs := [("a", reference "1" 0); ("b", JInt 7)] |},
                       2%nat)) by (vm_compute; reflexivity).
  split; [reflexivity|]. split; [exact Hnd|]. split; [exact Hrun|].
  destruct (C2_cursor_alignment one_link aligned_node [JInt 6; JInt 7]
              _ _ eq_refl Hrun Hnd) as (_ & Hpos & _).
  exact (Hpos 1%nat {| name := "b"; link := None; widget := flag |}
           eq_refl eq_refl eq_refl eq_refl).
Defined.

(** C2 as first stated fails twice.  With N = 2 widget-flagged ports of
    which M = 1 is linked and a widget list of length N - M = 1, the
    unlinked port is not bound at all: the linked port has used up the
    only position.  And a port bound by the KSampler override does not
    move the cursor: the next positional port reads position 0. *)
Lemma C2_counterexample :
  count_ports widget_flagged (node_inputs cursor_node) = 2%nat ∧
  count_ports (λ inp, widget_flagged inp && linked inp)
    (node_inputs cursor_node) = 1%nat ∧
  widgets_values cursor_node = JList [JInt 7] ∧
  compile_node one_link cursor_node
  = Ok ({| class_type := JStr "T"; inputs := [("a", reference "1" 0)] |},
        2%nat) ∧
  compile_node one_link ksampler_node
  = Ok ({| class_type := JStr "KSampler";
           inputs := [("seed", JInt 42); ("extra", JInt 42)] |}, 1%nat).
Proof. vm_compute. by repeat split. Qed.
End CursorClaims.

(** ** The KSampler override *)

Section Override.
Implicit Types (table : gmap Z link_row) (node : raw_node).

Lemma mapping_of_ksampler node ws :
  node_type node = JStr "KSampler" → widgets_values node = JList ws →
  mapping_of node = Some (ksampler_mapping ws).
Proof. unfold mapping_of. by intros -> ->. Qed.

(** The mapping of lines 28-35 is the specification's table. *)
Lemma ksampler_mapping_get ws nm i dflt :
  (nm, (i, dflt)) ∈ ksampler_spec →
  mapping_get (Some (ksampler_mapping ws)) nm = Some (widget_or ws i dflt).
Proof.
  unfold ksampler_spec. intros Hin.
  repeat (apply elem_of_cons in Hin as [Hin|Hin]; [by simplify_eq|]).
  by apply elem_of_nil in Hin.
Qed.

Lemma widget_or_spec ws i dflt :
  (i < length ws → ws !! i = Some (widget_or ws i dflt))%nat ∧
  (length ws ≤ i → widget_or ws i dflt = dflt)%nat.
Proof.
  unfold widget_or. split.
  - intros [v Hv]%lookup_lt_is_Some. by rewrite Hv.
  - intros Hge%lookup_ge_None. by rewrite Hge.
Qed.

(** C8. On a KSampler node whose widgets are a list, an unlinked
    widget-flagged port named seed, steps, cfg, sampler_name, scheduler
    or denoise is bound by the override, before the keyed and the
    positional fallback are looked at: from index 0, 2, 3, 4, 5 and 6 of
    the list, with the defaults 0, 4, 5, 'euler', 'beta' and 1 taken
    exactly when the list is too short to have that index. *)
Theorem C8_ksampler_override table node ws inp i dflt :
  node_type node = JStr "KSampler" → widgets_values node = JList ws →
  linked inp = false → widget_flagged inp = true →
  (name inp, (i, dflt)) ∈ ksampler_spec →
  ∃ v,
    (i < length ws → ws !! i = Some v)%nat ∧
    (length ws ≤ i → v = dflt)%nat ∧
    (∀ st, bind_input table (widgets_values node) (mapping_of node) st inp
           = Ok (dict_set st.1 (name inp) v, st.2)) ∧
    (∀ pre post e c,
       node_inputs node = pre ++ inp :: post → name inp ∉ name <$> post →
       compile_node table node = Ok (e, c) →
       dict_get (inputs e) (name inp) = Some v).
Proof.
  intros Hty Hws Hl Hw Hspec. exists (widget_or ws i dflt).
  destruct (widget_or_spec ws i dflt) as [Hin Hout].
  assert (Hstep : ∀ st,
             bind_input table (widgets_values node) (mapping_of node) st inp
             = Ok (dict_set st.1 (name inp) (widget_or ws i dflt), st.2)).
  { intros st. apply bind_input_override; [|done|].
    - unfold linked in Hl. by destruct (link inp).
    - rewrite (mapping_of_ksampler node ws) by done.
      by apply ksampler_mapping_get. }
  split_and!; try done.
  intros pre post e c Hsplit Hlast (st3 & Hrun & -> & ->)%compile_node_Ok.
  rewrite Hsplit in Hrun.
  apply bind_inputs_last in Hrun as (st1 & st2 & _ & H2 & _ & Hget); [|done].
  rewrite Hstep in H2. simplify_eq. cbn [inputs]. rewrite Hget. cbn [fst].
  apply dict_get_set_eq.
Qed.

Lemma C8_ksampler_override_witness :
  node_type ksampler_node = JStr "KSampler" ∧
  widgets_values ksampler_node = JList [JInt 42; JStr "fixed"] ∧
  ∃ v, ([JInt 42; JStr "fixed"] !! 2%nat = None → v = JInt 4) ∧
       bind_input one_link (widgets_values ksampler_node)
         (mapping_of ksampler_node) ([], 0%nat)
         {| name := "steps"; link := None; widget := flag |}
       = Ok ([("steps", v)], 0%nat).
Proof.
  split; [reflexivity|]. split; [reflexivity|].
  assert (Hspec : ("steps", (2%nat, JInt 4)) ∈ ksampler_spec)
    by (unfold ksampler_spec; right; left).
  destruct (C8_ksampler_override one_link ksampler_node
              [JInt 42; JStr "fixed"]
              {| name := "steps"; link := None; widget := flag |}
              2%nat (JInt 4) eq_refl eq_refl eq_refl eq_refl Hspec)
    as (v & _ & Hshort & Hstep & _).
  exists v. split.
  - intros _. apply Hshort. simpl. lia.
  - exact (Hstep ([], 0%nat)).
Defined.
End Override.

(** ** The loop over the nodes *)

Section CompileFacts.
Context (table : gmap Z link_row).
Implicit Types (node : raw_node) (ns : list raw_node)
  (acc flat : pydict flat_node).

Lemma compile_nodes_cons acc node ns :
  compile_nodes table acc (node :: ns)
  = (e ← compile_node table node;
     compile_nodes table (dict_set acc (node_key node) e.1) ns).
Proof. done. Qed.

Lemma compile_nodes_cons_Ok acc node ns flat :
  compile_nodes table acc (node :: ns) = Ok flat →
  ∃ e c, compile_node table node = Ok (e, c) ∧
         compile_nodes table (dict_set acc (node_key node) e) ns = Ok flat.
Proof.
  rewrite compile_nodes_cons.
  destruct (compile_node table node) as [[e c]|err]; [|done].
  intros H. by exists e, c.
Qed.

Lemma compile_node_Raise node err :
  compile_node table node = Raise err →
  ∃ inp lid, inp ∈ node_inputs node ∧ err = KeyError lid ∧
             link inp = Some lid ∧ table !! lid = None.
Proof.
  unfold compile_node.
  destruct (bind_inputs _ _ _ _ _) as [st|err'] eqn:Hrun; [done|].
  intros [= ->]. by eapply bind_inputs_Raise.
Qed.

Lemma compile_nodes_Raise acc ns err :
  compile_nodes table acc ns = Raise err →
  ∃ node, node ∈ ns ∧ compile_node table node = Raise err.
Proof.
  revert acc. induction ns as [|node ns IH]; intros acc; [done|].
  rewrite compile_nodes_cons.
  destruct (compile_node table node) as [[e c]|err'] eqn:Hn.
  - intros (node' & Hin & H)%IH. exists node'. split; [by right|done].
  - intros [= ->]. exists node. split; [by left|done].
Qed.

Lemma compile_nodes_Ok_each acc ns flat node :
  compile_nodes table acc ns = Ok flat → node ∈ ns →
  ∃ e c, compile_node table node = Ok (e, c).
Proof.
  intros Hrun Hin. revert acc Hrun.
  induction Hin as [node ns|node0 node ns Hin IH];
    intros acc (e & c & Hn & Hrest)%compile_nodes_cons_Ok.
  - by exists e, c.
  - by eapply IH.
Qed.

Lemma compile_nodes_missing acc ns node inp lid :
  node ∈ ns → inp ∈ node_inputs node → link inp = Some lid →
  table !! lid = None →
  ∃ lid', compile_nodes table acc ns = Raise (KeyError lid')
          ∧ table !! lid' = None.
Proof.
  intros Hnode Hinp Hl Ht.
  destruct (compile_nodes table acc ns) as [flat|err] eqn:Hrun.
  - exfalso.
    destruct (compile_nodes_Ok_each _ _ _ _ Hrun Hnode) as (e & c & Hn).
    apply compile_node_Ok in Hn as (st & Hst & _).
    destruct (bind_inputs_missing table (widgets_values node)
                (mapping_of node) ([], 0%nat) _ _ _ Hinp Hl Ht)
      as (lid' & Hr & _).
    congruence.
  - apply compile_nodes_Raise in Hrun as (node' & _ & Hr).
    apply compile_node_Raise in Hr as (inp' & lid' & _ & -> & _ & Hn).
    by exists lid'.
Qed.

Lemma compile_node_present node :
  links_present table (node_inputs node) →
  ∃ e c, compile_node table node = Ok (e, c).
Proof.
  intros Hp.
  destruct (compile_node table node) as [[e c]|err] eqn:Hn; [by exists e, c|].
  apply compile_node_Raise in Hn as (inp & lid & Hin & -> & Hl & Hnone).
  unfold links_present in Hp. rewrite Forall_forall in Hp.
  destruct (Hp inp Hin lid Hl) as [l Hsome]. congruence.
Qed.

Lemma compile_nodes_present acc ns :
  Forall (λ node, links_present table (node_inputs node)) ns →
  ∃ flat, compile_nodes table acc ns = Ok flat.
Proof.
  intros Hp.
  destruct (compile_nodes table acc ns) as [flat|err] eqn:Hrun;
    [by exists flat|].
  apply compile_nodes_Raise in Hrun as (node & Hin & Hr).
  rewrite Forall_forall in Hp.
  destruct (compile_node_present node (Hp node Hin)) as (e & c & Hok).
  congruence.
Qed.

Lemma compile_nodes_other acc ns flat k :
  compile_nodes table acc ns = Ok flat → k ∉ node_key <$> ns →
  dict_get flat k = dict_get acc k.
Proof.
  revert acc. induction ns as [|node ns IH]; intros acc.
  - by intros [= ->].
  - intros (e & c & Hn & Hrest)%compile_nodes_cons_Ok.
    rewrite fmap_cons. intros [Hne Hnin]%not_elem_of_cons.
    rewrite (IH _ Hrest Hnin). by apply dict_get_set_ne.
Qed.

(** The entry stored under a key is the one of the last node with it. *)
Lemma compile_nodes_last acc pre node post flat :
  compile_nodes table acc (pre ++ node :: post) = Ok flat →
  node_key node ∉ node_key <$> post →
  ∃ e c, compile_node table node = Ok (e, c)
         ∧ dict_get flat (node_key node) = Some e.
Proof.
  revert acc. induction pre as [|node0 pre IH]; intros acc.
  - intros (e & c & Hn & Hrest)%compile_nodes_cons_Ok Hlast.
    exists e, c. split; [done|].
    rewrite (compile_nodes_other _ _ _ _ Hrest Hlast).
    apply dict_get_set_eq.
  - rewrite <- app_comm_cons.
    intros (e0 & c0 & _ & Hrest)%compile_nodes_cons_Ok Hlast.
    by eapply IH.
Qed.

Lemma compile_nodes_keys acc ns flat k :
  compile_nodes table acc ns = Ok flat →
  k ∈ dict_keys flat ↔ k ∈ dict_keys acc ∨ k ∈ node_key <$> ns.
Proof.
  revert acc. induction ns as [|node ns IH]; intros acc.
  - intros [= ->]. rewrite fmap_nil, elem_of_nil. tauto.
  - intros (e & c & Hn & Hrest)%compile_nodes_cons_Ok.
    rewrite (IH _ Hrest), dict_keys_set, fmap_cons, elem_of_cons. tauto.
Qed.

Lemma compile_nodes_elem acc ns flat nid e :
  compile_nodes table acc ns = Ok flat → (nid, e) ∈ flat →
  (nid, e) ∈ acc ∨
  ∃ node c, node ∈ ns ∧ compile_node table node = Ok (e, c).
Proof.
  revert acc. induction ns as [|node ns IH]; intros acc.
  - intros [= ->]. by left.
  - intros (e' & c & Hn & Hrest)%compile_nodes_cons_Ok Hin.
    destruct (IH _ Hrest Hin) as [Hacc|(node' & c' & Hin' & Hn')].
    + apply dict_set_elem in Hacc as [[-> ->]|Hacc]; [|by left].
      right. exists node, c. split; [by left|done].
    + right. exists node', c'. split; [by right|done].
Qed.
End CompileFacts.

Section LinksIndex.
Implicit Types (rows : list link_row) (m : gmap Z link_row).

Lemma links_fold_Some m rows lid l :
  foldl (fun m l => <[link_id l := l]> m) m rows !! lid = Some l →
  (l ∈ rows ∧ link_id l = lid) ∨ m !! lid = Some l.
Proof.
  revert m. induction rows as [|r rows IH]; intros m; [by right|].
  cbn [foldl]. intros [[Hin Hid]|Hm]%IH.
  - left. split; [by right|done].
  - destruct (decide (link_id r = lid)) as [<-|Hne].
    + rewrite lookup_insert_eq in Hm. simplify_eq. left. split; [by left|done].
    + rewrite lookup_insert_ne in Hm by done. by right.
Qed.

Lemma links_fold_None m rows lid :
  foldl (fun m l => <[link_id l := l]> m) m rows !! lid = None ↔
  m !! lid = None ∧ lid ∉ link_id <$> rows.
Proof.
  revert m. induction rows as [|r rows IH]; intros m.
  - cbn [foldl]. rewrite fmap_nil. split; [|tauto].
    intros H. split; [done|]. apply not_elem_of_nil.
  - cbn [foldl]. rewrite IH, fmap_cons, not_elem_of_cons.
    destruct (decide (link_id r = lid)) as [<-|Hne].
    + rewrite lookup_insert_eq. naive_solver.
    + rewrite lookup_insert_ne by done. naive_solver.
Qed.

(** A row found in the table is a row of [data['links']] with that id. *)
Lemma links_index_Some rows lid l :
  links_index rows !! lid = Some l → l ∈ rows ∧ link_id l = lid.
Proof.
  intros [H|H]%links_fold_Some; [done|]. by rewrite lookup_empty in H.
Qed.

Lemma links_index_None rows lid :
  links_index rows !! lid = None ↔ lid ∉ link_id <$> rows.
Proof.
  unfold links_index. rewrite links_fold_None, lookup_empty. tauto.
Qed.
End LinksIndex.

(** ** Link resolution, forced links and the scenario: claims *)

Section CompileClaims.
Implicit Types (data : raw_graph) (flat : pydict flat_node).

Lemma convert_Raise data err :
  compile data = Raise err → convert data = Raise err.
Proof. unfold convert. by intros ->. Qed.

(** C6. A link id declared on some port and absent from the links table
    makes the compilation raise, so that no document is produced at all;
    a declared link is either resolved or fatal, never dropped.  When
    every declared link id is in the table, the base pass succeeds and
    each linked input is bound to the Reference
    [[str(producer_node_id), producer_slot_index]] of its table row. *)
Theorem C6_malformed_link data :
  let table := links_index (links data) in
  (∀ lid, table !! lid = None ↔ lid ∉ link_id <$> links data) ∧
  (∀ node inp lid,
     node ∈ nodes data → inp ∈ node_inputs node →
     link inp = Some lid → table !! lid = None →
     ∃ lid', table !! lid' = None ∧
             compile data = Raise (KeyError lid') ∧
             convert data = Raise (KeyError lid')) ∧
  (∀ node inp lid l st,
     link inp = Some lid → table !! lid = Some l →
     l ∈ links data ∧ link_id l = lid ∧
     ∃ idx', bind_input table (widgets_values node) (mapping_of node) st inp
             = Ok (dict_set st.1 (name inp)
                     (reference (str_Z (src_node l)) (src_slot l)), idx')) ∧
  (Forall (λ node, links_present table (node_inputs node)) (nodes data) →
   ∃ flat, compile data = Ok flat ∧
     ∀ pre node post,
       nodes data = pre ++ node :: post → node_key node ∉ node_key <$> post →
       ∃ e, dict_get flat (node_key node) = Some e ∧
         ∀ ipre inp ipost lid,
           node_inputs node = ipre ++ inp :: ipost →
           name inp ∉ name <$> ipost → link inp = Some lid →
           ∃ l, table !! lid = Some l ∧
                dict_get (inputs e) (name inp)
                = Some (reference (str_Z (src_node l)) (src_slot l))).
Proof.
  intros table. split_and!.
  - intros lid. apply links_index_None.
  - intros node inp lid Hnode Hinp Hl Ht.
    destruct (compile_nodes_missing table [] (nodes data) node inp lid
                Hnode Hinp Hl Ht) as (lid' & Hr & Hn).
    exists lid'. split_and!; [done|done|by apply convert_Raise].
  - intros node inp lid l st Hl Ht.
    destruct (links_index_Some (links data) lid l Ht) as [Hin Hid].
    split_and!; [done|done|].
    rewrite (bind_input_linked _ _ _ st inp lid l Hl Ht). by eexists.
  - intros Hp.
    destruct (compile_nodes_present table [] (nodes data) Hp) as [flat Hflat].
    exists flat. split; [done|].
    intros pre node post Hsplit Hlast. unfold compile in Hflat.
    rewrite Hsplit in Hflat.
    destruct (compile_nodes_last _ _ _ _ _ _ Hflat Hlast) as (e & c & Hn & Hget).
    exists e. split; [done|].
    intros ipre inp ipost lid Hisplit Hilast Hl.
    assert (Hinp : inp ∈ node_inputs node).
    { rewrite Hisplit. apply elem_of_app. right. by left. }
    assert (Hnode : node ∈ nodes data).
    { rewrite Hsplit. apply elem_of_app. right. by left. }
    rewrite Forall_forall in Hp. specialize (Hp node Hnode).
    unfold links_present in Hp. rewrite Forall_forall in Hp.
    destruct (Hp inp Hinp lid Hl) as [l Ht]. exists l. split; [done|].
    apply compile_node_Ok in Hn as (st3 & Hrun & -> & _).
    rewrite Hisplit in Hrun.
    apply bind_inputs_last in Hrun as (st1 & st2 & _ & H2 & _ & Hgetl); [|done].
    rewrite (bind_input_linked _ _ _ _ _ _ l Hl Ht) in H2. simplify_eq.
    cbn [inputs]. rewrite Hgetl. cbn [fst]. apply dict_get_set_eq.
Qed.

Lemma C6_malformed_link_witness :
  (∃ lid', compile broken_scenario = Raise (KeyError lid')) ∧
  (∃ flat, compile (scenario (JBool true)) = Ok flat).
Proof.
  split.
  - destruct (C6_malformed_link broken_scenario) as (_ & Hfail & _).
    destruct (Hfail
                {| node_id := 2; node_type := JStr "TypeB";
                   node_inputs := [{| name := "y"; link := Some 10;
                                      widget := None |}];
                   widgets_values := JNull |}
                {| name := "y"; link := Some 10; widget := None |} 10)
      as (lid' & _ & Hr & _).
    + cbn. right. left.
    + left.
    + reflexivity.
    + reflexivity.
    + by exists lid'.
  - destruct (C6_malformed_link (scenario (JBool true))) as (_ & _ & _ & Hok).
    destruct Hok as (flat & Hflat & _).
    + repeat constructor; cbn [link]; intros lid [= <-]; by eexists.
    + by exists flat.
Defined.

Lemma dict_set_keys_present {V} (d : pydict V) k v :
  k ∈ dict_keys d → dict_keys (dict_set d k v) = dict_keys d.
Proof.
  unfold dict_keys. induction d as [|[k' v'] d IH];
    [by intros ?%elem_of_nil|].
  cbn [dict_set]. rewrite fmap_cons. cbn [fst].
  destruct (String.eqb_spec k' k) as [->|Hne]; [by rewrite fmap_cons|].
  intros [?|Hin]%elem_of_cons; [congruence|].
  rewrite fmap_cons. cbn [fst]. by rewrite IH.
Qed.

(** C7. [set_link] on a node id that is not in the map returns the map
    as it is; on a node that is there it sets the named input to the
    Reference [[str(src_id), src_slot]], whatever was resolved before,
    and touches nothing else. *)
Theorem C7_set_link flat nid input_name src_id src_slot :
  (py_str nid ∉ dict_keys flat →
   set_link flat nid input_name src_id src_slot = flat) ∧
  (∀ node, dict_get flat (py_str nid) = Some node →
     ∃ node',
       dict_get (set_link flat nid input_name src_id src_slot) (py_str nid)
       = Some node' ∧
       dict_get (inputs node') input_name
       = Some (reference (py_str src_id) src_slot) ∧
       class_type node' = class_type node ∧
       (∀ nm, nm ≠ input_name →
              dict_get (inputs node') nm = dict_get (inputs node) nm) ∧
       (∀ k, k ≠ py_str nid →
             dict_get (set_link flat nid input_name src_id src_slot) k
             = dict_get flat k) ∧
       dict_keys (set_link flat nid input_name src_id src_slot)
       = dict_keys flat).
Proof.
  unfold set_link. split.
  - intros Habs%dict_get_None. by rewrite Habs.
  - intros node Hget. rewrite Hget. eexists. split_and!.
    + apply dict_get_set_eq.
    + apply dict_get_set_eq.
    + done.
    + intros nm Hne. by apply dict_get_set_ne.
    + intros k Hne. by apply dict_get_set_ne.
    + apply dict_set_keys_present. apply dict_get_Some_elem in Hget.
      by apply (list_elem_of_fmap_2 fst) in Hget.
Qed.

Lemma C7_set_link_witness :
  set_link scenario_flat (IdStr "28") "vae" (IdStr "53") 0 = scenario_flat ∧
  ∃ node',
    dict_get (set_link scenario_flat (IdInt 2) "y" (IdInt 7) 3) "2"
    = Some node' ∧
    dict_get (inputs node') "y" = Some (reference "7" 3).
Proof.
  split.
  - apply (C7_set_link scenario_flat (IdStr "28") "vae" (IdStr "53") 0).
    by_compute.
  - destruct (proj2 (C7_set_link scenario_flat (IdInt 2) "y" (IdInt 7) 3)
                {| class_type := JStr "TypeB";
                   inputs := [("y", reference "1" 0)] |} eq_refl)
      as (node' & Hget & Hin & _).
    exists node'. split; [exact Hget|exact Hin].
Defined.

(** C9. The two-node scenario compiles to exactly the two entries of
    [scenario_flat], and extracting ["2"] from them leaves node "2"
    with no inputs: the Reference to "1" is dropped. *)
Theorem C9_scenario w :
  truthy w = true →
  convert (scenario w) = Ok scenario_flat ∧
  extract scenario_flat {["2"]}
  = [("2", {| class_type := JStr "TypeB"; inputs := [] |})].
Proof.
  intros Hw. split; [|vm_compute; reflexivity].
  unfold convert, compile, scenario. cbn [nodes links].
  rewrite compile_nodes_cons. unfold compile_node at 1.
  cbn [node_inputs widgets_values node_type mapping_of json_eq_str].
  rewrite bind_inputs_cons.
  rewrite bind_input_positional;
    [|reflexivity|exact Hw|reflexivity].
  vm_compute. reflexivity.
Qed.

Lemma C9_scenario_witness :
  truthy (JDict [("name", JStr "x")]) = true ∧
  convert (scenario (JDict [("name", JStr "x")])) = Ok scenario_flat.
Proof.
  split; [reflexivity|].
  exact (proj1 (C9_scenario (JDict [("name", JStr "x")]) eq_refl)).
Defined.
End CompileClaims.

(** ** Where the References of the compiled map come from *)

Section RefOrigin.
Context (table : gmap Z link_row) (widgets : json)
  (mapping : option (pydict json)).
Implicit Types (st : pydict json * nat) (inp : port) (inps : list port).

Lemma bind_input_elem st inp st' nm val :
  bind_input table widgets mapping st inp = Ok st' → (nm, val) ∈ st'.1 →
  (nm, val) ∈ st.1 ∨
  (∃ lid l, link inp = Some lid ∧ table !! lid = Some l ∧
            val = reference (str_Z (src_node l)) (src_slot l)) ∨
  widget_literal widgets mapping val.
Proof.
  destruct st as [ins idx]. unfold bind_input, widget_literal.
  destruct (link inp) as [lid|].
  - destruct (table !! lid) as [l|] eqn:Hl; [|done].
    intros [= <-]. cbn [fst].
    intros [[-> ->]|Hin]%dict_set_elem; [|by left].
    right. left. by exists lid, l.
  - destruct (truthy_opt (widget inp)); [|intros [= <-]; by left].
    destruct (mapping_get mapping (name inp)) as [v|] eqn:Hm.
    { intros [= <-]. cbn [fst].
      intros [[-> ->]|Hin]%dict_set_elem; [|by left].
      right. right. left. by exists (name inp). }
    destruct widgets as [| | | | |ws|kv]; try (intros [= <-]; by left).
    + destruct (ws !! idx) as [v|] eqn:Hv; intros [= <-]; cbn [fst];
        [|by left].
      intros [[-> ->]|Hin]%dict_set_elem; [|by left].
      right. right. right. by eapply list_elem_of_lookup_2.
    + destruct (dict_get kv (name inp)) as [v|] eqn:Hv; intros [= <-];
        cbn [fst]; [|by left].
      intros [[-> ->]|Hin]%dict_set_elem; [|by left].
      right. right. right. exists (name inp). by apply dict_get_Some_elem.
Qed.

Lemma bind_inputs_elem st inps st' nm val :
  bind_inputs table widgets mapping st inps = Ok st' → (nm, val) ∈ st'.1 →
  (nm, val) ∈ st.1 ∨
  (∃ inp lid l, inp ∈ inps ∧ link inp = Some lid ∧ table !! lid = Some l ∧
                val = reference (str_Z (src_node l)) (src_slot l)) ∨
  widget_literal widgets mapping val.
Proof.
  revert st. induction inps as [|inp inps IH]; intros st.
  - intros [= ->]. by left.
  - intros (st2 & H2 & Hrest)%bind_inputs_cons_Ok Hin.
    destruct (IH _ Hrest Hin) as [Hst2|[(inp' & lid & l & Hi & H)|Hlit]].
    + destruct (bind_input_elem _ _ _ _ _ H2 Hst2)
        as [?|[(lid & l & H)|?]]; [by left| |by right; right].
      right. left. exists inp, lid, l. split; [by left|done].
    + right. left. exists inp', lid, l. split; [by right|done].
    + by right; right.
Qed.
End RefOrigin.

Section Integrity.
Implicit Types (data : raw_graph) (flat : pydict flat_node)
  (node : raw_node).

Lemma widget_or_plain ws i dflt :
  Forall (λ v, as_reference v = None) ws → as_reference dflt = None →
  as_reference (widget_or ws i dflt) = None.
Proof.
  intros Hws Hd. unfold widget_or.
  destruct (ws !! i) as [v|] eqn:Hv; [|done].
  rewrite Forall_forall in Hws. apply Hws. by eapply list_elem_of_lookup_2.
Qed.

Lemma widget_literal_plain node val :
  plain_widgets node →
  widget_literal (widgets_values node) (mapping_of node) val →
  as_reference val = None.
Proof.
  unfold plain_widgets, widget_literal, mapping_of. intros Hplain [[nm Hm]|Hw].
  - destruct (widgets_values node) as [| | | | |ws|kv]; try done.
    destruct (json_eq_str (node_type node) "KSampler"); [|done].
    cbn [mapping_get ksampler_mapping dict_get] in Hm.
    repeat case_match; simplify_eq; by apply widget_or_plain.
  - destruct (widgets_values node) as [| | | | |ws|kv]; try done.
    + rewrite Forall_forall in Hplain. by apply Hplain.
    + destruct Hw as [k Hk]. rewrite Forall_forall in Hplain.
      exact (Hplain (k, val) Hk).
Qed.

(** A Reference in a compiled entry is the resolution of a declared
    link of that node. *)
Lemma compile_node_refs table node e c nm val p :
  compile_node table node = Ok (e, c) → plain_widgets node →
  (nm, val) ∈ inputs e → as_reference val = Some p →
  ∃ inp lid l, inp ∈ node_inputs node ∧ link inp = Some lid ∧
               table !! lid = Some l ∧ p = str_Z (src_node l).
Proof.
  intros (st & Hrun & -> & _)%compile_node_Ok Hplain Hin Hr.
  cbn [inputs] in Hin.
  destruct (bind_inputs_elem _ _ _ _ _ _ _ _ Hrun Hin)
    as [Hnil|[(inp & lid & l & Hi & Hl & Ht & ->)|Hlit]].
  - by apply elem_of_nil in Hnil.
  - exists inp, lid, l. split_and!; try done.
    cbn in Hr. by simplify_eq.
  - rewrite (widget_literal_plain node val Hplain Hlit) in Hr. done.
Qed.

Lemma refs_within_mono (K K' : string → Prop) flat :
  (∀ p, K p → K' p) → refs_within K flat → refs_within K' flat.
Proof. intros HK H nid node nm val p ???. apply HK. by eapply H. Qed.

Lemma compile_refs data flat :
  compile data = Ok flat → no_dangling_links data →
  Forall plain_widgets (nodes data) →
  refs_within (λ p, p ∈ dict_keys flat) flat.
Proof.
  unfold compile. intros Hc Hlinks Hplain nid e nm val p Hel Hin Hr.
  destruct (compile_nodes_elem _ _ _ _ _ _ Hc Hel)
    as [Hnil|(node & c & Hnode & Hn)]; [by apply elem_of_nil in Hnil|].
  rewrite Forall_forall in Hplain.
  destruct (compile_node_refs _ _ _ _ _ _ _ Hn (Hplain _ Hnode) Hin Hr)
    as (inp & lid & l & Hinp & Hl & Ht & ->).
  unfold no_dangling_links in Hlinks. rewrite Forall_forall in Hlinks.
  specialize (Hlinks node Hnode). rewrite Forall_forall in Hlinks.
  destruct (Hlinks inp Hinp lid Hl) as (l' & Ht' & Hsrc).
  rewrite Ht in Ht'. simplify_eq.
  apply (compile_nodes_keys _ _ _ _ _ Hc). right.
  apply list_elem_of_fmap in Hsrc as (src & -> & Hsrc).
  apply list_elem_of_fmap. by exists src.
Qed.
End Integrity.

(** ** The post-processing hooks *)

Section Hooks.
Implicit Types (data : raw_graph) (flat : pydict flat_node).

Lemma update_unet_keys flat : dict_keys (update_unet flat) = dict_keys flat.
Proof.
  unfold update_unet, dict_keys. rewrite <- list_fmap_compose.
  apply list_fmap_ext. intros _ [k n] _. cbn [compose fst snd].
  by destruct (_ && _).
Qed.

Lemma update_unet_refs (K : string → Prop) flat :
  refs_within K flat → refs_within K (update_unet flat).
Proof.
  intros H nid node' nm val p Hel Hin Hr. unfold update_unet in Hel.
  apply list_elem_of_fmap in Hel as ([k n] & Heq & Hel). cbn [fst snd] in Heq.
  destruct (_ && _); simplify_eq; [|by eapply H].
  cbn [with_inputs inputs] in Hin.
  apply dict_set_elem in Hin as [[-> ->]|Hin]; [done|by eapply H].
Qed.

Lemma find_clip_loader_key flat k :
  find_clip_loader flat = Some k → k ∈ dict_keys flat.
Proof.
  unfold dict_keys. induction flat as [|[nid node] flat IH]; [done|].
  cbn [find_clip_loader]. rewrite fmap_cons. cbn [fst].
  destruct (json_eq_str (class_type node) "CLIPLoader").
  - intros [= ->]. by left.
  - intros H. right. by apply IH.
Qed.

Lemma add_negative_keys flat neg_id k :
  k ∈ dict_keys flat → k ∈ dict_keys (add_negative flat neg_id).
Proof.
  unfold add_negative. intros Hk.
  destruct (find_clip_loader flat) as [cl|]; [|done].
  destruct (String.eqb cl ""); [done|]. apply dict_keys_set. by right.
Qed.

Lemma add_negative_refs flat neg_id :
  refs_within (λ p, p ∈ dict_keys flat) flat →
  refs_within (λ p, p ∈ dict_keys (add_negative flat neg_id))
    (add_negative flat neg_id).
Proof.
  intros H nid node nm val p Hel Hin Hr.
  pose proof (add_negative_keys flat neg_id) as Hkeys.
  unfold add_negative in Hel.
  destruct (find_clip_loader flat) as [cl|] eqn:Hcl;
    [|apply Hkeys; by eapply H].
  destruct (String.eqb cl ""); [apply Hkeys; by eapply H|].
  apply dict_set_elem in Hel as [[-> ->]|Hel]; [|apply Hkeys; by eapply H].
  cbn [inputs] in Hin. apply Hkeys.
  apply elem_of_cons in Hin as [[= -> ->]|Hin].
  - cbn in Hr. simplify_eq. by apply find_clip_loader_key.
  - apply elem_of_cons in Hin as [[= -> ->]|Hin]; [done|].
    by apply elem_of_nil in Hin.
Qed.

Lemma set_link_keys flat nid nm src slot :
  dict_keys (set_link flat nid nm src slot) = dict_keys flat.
Proof.
  unfold set_link. destruct (dict_get flat (py_str nid)) eqn:Hget; [|done].
  apply dict_set_keys_present. apply dict_get_Some_elem in Hget.
  by apply (list_elem_of_fmap_2 fst) in Hget.
Qed.

Lemma set_link_refs (K : string → Prop) flat nid nm src slot :
  (py_str nid ∈ dict_keys flat → K (py_str src)) →
  refs_within K flat → refs_within K (set_link flat nid nm src slot).
Proof.
  intros Hsrc H nid' node' nm' val p Hel Hin Hr. unfold set_link in Hel.
  destruct (dict_get flat (py_str nid)) as [node|] eqn:Hget; [|by eapply H].
  apply dict_get_Some_elem in Hget.
  apply dict_set_elem in Hel as [[-> ->]|Hel]; [|by eapply H].
  cbn [with_inputs inputs] in Hin.
  apply dict_set_elem in Hin as [[-> ->]|Hin]; [|by eapply H].
  cbn in Hr. simplify_eq. apply Hsrc.
  by apply (list_elem_of_fmap_2 fst) in Hget.
Qed.

(** Lines 96-110 are the calls of [forced_links], in order. *)
Lemma wire_calls flat neg_id :
  wire flat neg_id
  = foldl (fun p (c : string * string * string) =>
             set_link p (IdStr c.1.1) c.1.2 (IdStr c.2) 0)
      flat (forced_links neg_id).
Proof. reflexivity. Qed.

Lemma set_links_invariant (calls : list (string * string * string)) flat0 flat :
  dict_keys flat = dict_keys flat0 →
  Forall (λ c : string * string * string,
            c.1.1 ∈ dict_keys flat0 → c.2 ∈ dict_keys flat0) calls →
  refs_within (λ p, p ∈ dict_keys flat0) flat →
  let flat' := foldl (fun p (c : string * string * string) =>
                        set_link p (IdStr c.1.1) c.1.2 (IdStr c.2) 0)
                 flat calls in
  dict_keys flat' = dict_keys flat0 ∧
  refs_within (λ p, p ∈ dict_keys flat0) flat'.
Proof.
  intros Hkeys Hcalls. revert flat Hkeys.
  induction Hcalls as [|c calls Hc Hcalls IH]; intros flat Hkeys Hrefs;
    [done|].
  cbn [foldl]. apply IH.
  - by rewrite set_link_keys.
  - apply set_link_refs; [|done]. cbn [py_str]. by rewrite Hkeys.
Qed.

Lemma wire_keys flat neg_id :
  dict_keys (wire flat neg_id) = dict_keys flat.
Proof.
  rewrite wire_calls. generalize (forced_links neg_id). intros calls.
  revert flat. induction calls as [|c calls IH]; intros flat; [done|].
  cbn [foldl]. by rewrite IH, set_link_keys.
Qed.

Lemma convert_Ok data flat :
  convert data = Ok flat →
  ∃ flat0 m, compile data = Ok flat0 ∧ max_id (nodes data) = Ok m ∧
    flat = wire (add_negative (update_unet flat0) (str_Z (m + 1)))
             (str_Z (m + 1)).
Proof.
  unfold convert. destruct (compile data) as [flat0|]; [|done].
  cbn [mbind result_bind]. destruct (max_id (nodes data)) as [m|]; [|done].
  intros [= <-]. by exists flat0, m.
Qed.

(** C3 (as amended). For a raw graph with no dangling links -- every
    declared link id has a row and the producer of that row is a node of
    the graph -- and no widget value shaped like a Reference, the final
    output has no dangling Reference provided every forced link whose
    target node is in the output has its producer ("32", "53", "9" or
    the synthesized negative node) in the output as well. *)
Theorem C3_no_dangling data flat m :
  convert data = Ok flat → max_id (nodes data) = Ok m →
  no_dangling_links data → Forall plain_widgets (nodes data) →
  forced_ok flat (str_Z (m + 1)) →
  closed_refs flat.
Proof.
  intros (flat0 & m' & Hc & Hm' & ->)%convert_Ok Hm Hlinks Hplain Hforced.
  assert (m' = m) as -> by congruence.
  set (neg_id := str_Z (m + 1)) in *.
  set (flat1 := add_negative (update_unet flat0) neg_id) in *.
  assert (H1 : refs_within (λ p, p ∈ dict_keys flat1) flat1).
  { apply add_negative_refs. rewrite update_unet_keys.
    apply update_unet_refs. by apply (compile_refs data). }
  unfold forced_ok in Hforced. rewrite wire_keys in Hforced.
  destruct (set_links_invariant (forced_links neg_id) flat1 flat1
              eq_refl Hforced H1) as [Hkeys Hrefs].
  rewrite <- wire_calls in Hkeys, Hrefs.
  unfold closed_refs. rewrite Hkeys. exact Hrefs.
Qed.
End Hooks.

Section IntegrityExamples.

Lemma wired_pair_links : no_dangling_links wired_pair.
Proof.
  unfold no_dangling_links, wired_pair. cbn [nodes node_inputs].
  repeat constructor. cbn [link]. intros lid [= <-].
  exists {| link_id := 1; src_node := 32; src_slot := 0;
            dst_node := 8; dst_slot := 0 |}.
  split; [vm_compute; reflexivity|by_compute].
Defined.

Lemma wired_pair_plain : Forall plain_widgets (nodes wired_pair).
Proof.
  unfold wired_pair, plain_widgets. cbn [nodes].
  repeat (constructor; cbn [widgets_values]); reflexivity.
Defined.

Lemma wired_pair_forced : forced_ok wired_flat (str_Z (32 + 1)).
Proof. unfold forced_ok. by_compute. Defined.

Lemma C3_no_dangling_witness :
  convert wired_pair = Ok wired_flat ∧
  max_id (nodes wired_pair) = Ok 32 ∧
  no_dangling_links wired_pair ∧
  Forall plain_widgets (nodes wired_pair) ∧
  forced_ok wired_flat (str_Z (32 + 1)) ∧
  closed_refs wired_flat.
Proof.
  assert (Hc : convert wired_pair = Ok wired_flat)
    by (vm_compute; reflexivity).
  assert (Hm : max_id (nodes wired_pair) = Ok 32) by reflexivity.
  split_and!;
    [exact Hc|exact Hm|exact wired_pair_links|exact wired_pair_plain
    |exact wired_pair_forced|].
  exact (C3_no_dangling wired_pair wired_flat 32 Hc Hm wired_pair_links
           wired_pair_plain wired_pair_forced).
Defined.

(** C3 as first stated fails: a graph of one node with id 8 has no link
    at all, yet the forced link of line 97 makes its "model" input a
    Reference to "32", which is no key of the output. *)
Lemma C3_counterexample :
  no_dangling_links lone_sampler ∧
  Forall plain_widgets (nodes lone_sampler) ∧
  convert lone_sampler = Ok lone_flat ∧
  ¬ closed_refs lone_flat.
Proof.
  split_and!.
  - unfold no_dangling_links, lone_sampler. cbn [nodes node_inputs].
    repeat constructor.
  - unfold lone_sampler, plain_widgets. cbn [nodes].
    by repeat (constructor; cbn [widgets_values]).
  - vm_compute. reflexivity.
  - intros Hc.
    specialize (Hc "8" {| class_type := JStr "KSampler";
                          inputs := [("model", reference "32" 0)] |}
                  "model" (reference "32" 0) "32").
    assert (Hk : "32" ∈ dict_keys lone_flat).
    { apply Hc; [by left|by left|reflexivity]. }
    vm_compute in Hk. apply elem_of_cons in Hk as [Hk|Hk]; [done|].
    by apply elem_of_nil in Hk.
Qed.
End IntegrityExamples.


(** * Further properties of the two scripts *)

(** ** Node keys and the id of the synthesized node *)

Section NodeKeys.
Implicit Types (ns : list raw_node) (node : raw_node).

Lemma to_int_proper z :
  Z.to_int z ≠ Decimal.Pos Decimal.Nil ∧ Z.to_int z ≠ Decimal.Neg Decimal.Nil.
Proof.
  destruct z as [|p|p]; split; try done; cbn; intros [= Hp];
    by apply DecimalPos.Unsigned.to_uint_nonnil in Hp.
Qed.

Lemma str_Z_inj a b : str_Z a = str_Z b → a = b.
Proof.
  unfold str_Z. intros H. apply DecimalZ.to_int_inj.
  apply (f_equal NilZero.int_of_string) in H.
  rewrite !NilZero.isi in H by apply to_int_proper. congruence.
Qed.

Lemma str_Z_nonempty z : str_Z z ≠ "".
Proof.
  unfold str_Z. intros H. apply (f_equal NilZero.int_of_string) in H.
  rewrite NilZero.isi in H by apply to_int_proper. done.
Qed.

Lemma foldl_max_bounds (a : Z) (l : list Z) :
  a ≤ foldl Z.max a l ∧ (∀ x, x ∈ l → x ≤ foldl Z.max a l) ∧
  (foldl Z.max a l = a ∨ foldl Z.max a l ∈ l).
Proof.
  revert a. induction l as [|y l IH]; intros a; cbn [foldl].
  - split_and!; [lia| |by left]. by intros x ?%elem_of_nil.
  - destruct (IH (Z.max a y)) as (Hge & Hall & Hin). split_and!.
    + lia.
    + intros x [->|Hx]%elem_of_cons; [lia|by apply Hall].
    + destruct Hin as [Heq|Hin]; [|right; by right].
      rewrite Heq. destruct (Z.max_spec a y) as [[_ ->]|[_ ->]];
        [right; by left|by left].
Qed.

Lemma max_id_bounds ns m :
  max_id ns = Ok m →
  (∀ node, node ∈ ns → node_id node ≤ m) ∧
  ∃ node, node ∈ ns ∧ node_id node = m.
Proof.
  destruct ns as [|n ns]; [done|]. cbn [max_id]. intros [= <-].
  destruct (foldl_max_bounds (node_id n) (node_id <$> ns))
    as (Hge & Hall & Hin).
  split.
  - intros node [->|Hnode]%elem_of_cons; [done|].
    apply Hall. by apply list_elem_of_fmap_2.
  - destruct Hin as [Heq|Hin].
    + exists n. split; [by left|done].
    + apply list_elem_of_fmap in Hin as (node & Heq & Hnode).
      exists node. split; [by right|done].
Qed.

Lemma neg_id_not_key ns m :
  max_id ns = Ok m → str_Z (m + 1) ∉ node_key <$> ns.
Proof.
  intros Hm. destruct (max_id_bounds ns m Hm) as [Hall _].
  intros (node & Heq%str_Z_inj & Hnode)%list_elem_of_fmap.
  specialize (Hall node Hnode). lia.
Qed.

(** The id given to the negative node is the successor of the greatest
    node id, and its string differs from the key of every node: the
    synthesized node can never take the place of a compiled one. *)
Theorem neg_id_fresh ns m :
  max_id ns = Ok m →
  (∀ node, node ∈ ns → node_id node ≤ m) ∧
  (∃ node, node ∈ ns ∧ node_id node = m) ∧
  str_Z (m + 1) ∉ node_key <$> ns.
Proof.
  intros Hm. destruct (max_id_bounds ns m Hm) as [Hall Hex].
  split_and!; [done|done|by apply neg_id_not_key].
Qed.

Lemma neg_id_fresh_witness :
  max_id (nodes wired_pair) = Ok 32 ∧
  str_Z (32 + 1) ∉ node_key <$> nodes wired_pair.
Proof.
  split; [reflexivity|].
  exact (proj2 (proj2 (neg_id_fresh (nodes wired_pair) 32 eq_refl))).
Defined.
End NodeKeys.

(** ** The compiled map is a dictionary of the nodes *)

Section CompiledMap.
Implicit Types (data : raw_graph) (flat : pydict flat_node)
  (table : gmap Z link_row) (node : raw_node).

Lemma dict_set_wf {V} (d : pydict V) k v : dict_wf d → dict_wf (dict_set d k v).
Proof.
  intros Hwf. destruct (decide (k ∈ dict_keys d)) as [Hin|Hnin].
  - unfold dict_wf. by rewrite dict_set_keys_present.
  - rewrite dict_set_fresh by done. unfold dict_wf, dict_keys in *.
    rewrite fmap_app. apply NoDup_app. split_and!; [done| |].
    + intros x Hx [->|Hnil%elem_of_nil]%elem_of_cons; done.
    + apply NoDup_singleton.
Qed.

Lemma bind_input_wf table widgets mapping st inp st' :
  bind_input table widgets mapping st inp = Ok st' →
  dict_wf st.1 → dict_wf st'.1.
Proof.
  destruct st as [ins idx]. unfold bind_input. intros H Hwf.
  repeat case_match; simplify_eq; cbn [fst] in *; try done;
    by apply dict_set_wf.
Qed.

Lemma bind_inputs_wf table widgets mapping st inps st' :
  bind_inputs table widgets mapping st inps = Ok st' →
  dict_wf st.1 → dict_wf st'.1.
Proof.
  revert st. induction inps as [|inp inps IH]; intros st.
  - by intros [= ->].
  - intros (st2 & H2 & Hrest)%bind_inputs_cons_Ok Hwf.
    eapply IH; [done|]. by eapply bind_input_wf.
Qed.

Lemma compile_node_wf table node e c :
  compile_node table node = Ok (e, c) → dict_wf (inputs e).
Proof.
  intros (st & Hrun & -> & _)%compile_node_Ok. cbn [inputs].
  eapply bind_inputs_wf; [done|]. apply NoDup_nil_2.
Qed.

Lemma compile_nodes_wf table acc ns flat :
  compile_nodes table acc ns = Ok flat → dict_wf acc → dict_wf flat.
Proof.
  revert acc. induction ns as [|node ns IH]; intros acc.
  - by intros [= ->].
  - intros (e & c & Hn & Hrest)%compile_nodes_cons_Ok Hwf.
    eapply IH; [done|]. by apply dict_set_wf.
Qed.

Lemma compile_nodes_entry table acc ns flat nid e :
  compile_nodes table acc ns = Ok flat → (nid, e) ∈ flat →
  (nid, e) ∈ acc ∨
  ∃ node c, node ∈ ns ∧ nid = node_key node ∧
            compile_node table node = Ok (e, c).
Proof.
  revert acc. induction ns as [|node ns IH]; intros acc.
  - intros [= ->]. by left.
  - intros (e' & c & Hn & Hrest)%compile_nodes_cons_Ok Hin.
    destruct (IH _ Hrest Hin) as [Hacc|(node' & c' & Hin' & Hk & Hn')].
    + apply dict_set_elem in Hacc as [[-> ->]|Hacc]; [|by left].
      right. exists node, c. split_and!; [by left|done|done].
    + right. exists node', c'. split_and!; [by right|done|done].
Qed.

Lemma compile_nodes_order table acc ns flat :
  compile_nodes table acc ns = Ok flat →
  NoDup (dict_keys acc ++ (node_key <$> ns)) →
  dict_keys flat = dict_keys acc ++ (node_key <$> ns).
Proof.
  revert acc. induction ns as [|node ns IH]; intros acc.
  - intros [= ->] _. by rewrite fmap_nil, app_nil_r.
  - intros (e & c & Hn & Hrest)%compile_nodes_cons_Ok Hnd.
    rewrite fmap_cons in Hnd.
    assert (Hfresh : node_key node ∉ dict_keys acc).
    { apply NoDup_app in Hnd as (_ & Hd & _). intros Hin.
      apply (Hd _ Hin). by left. }
    rewrite dict_set_fresh in Hrest by done.
    rewrite (IH _ Hrest); unfold dict_keys; rewrite fmap_app, fmap_cons;
      cbn [fmap list_fmap fst]; by rewrite <- app_assoc.
Qed.

Lemma compile_keys data flat k :
  compile data = Ok flat →
  k ∈ dict_keys flat ↔ k ∈ node_key <$> nodes data.
Proof.
  unfold compile. intros Hc. rewrite (compile_nodes_keys _ _ _ _ k Hc).
  cbn. rewrite elem_of_nil. tauto.
Qed.

Lemma compile_flat_wf data flat : compile data = Ok flat → flat_wf flat.
Proof.
  unfold compile. intros Hc. split.
  - eapply compile_nodes_wf; [done|]. apply NoDup_nil_2.
  - apply Forall_forall. intros [nid e] Hin.
    destruct (compile_nodes_entry _ _ _ _ _ _ Hc Hin)
      as [Hnil|(node & c & _ & _ & Hn)]; [by apply elem_of_nil in Hnil|].
    by eapply compile_node_wf.
Qed.

(** The base pass stores one entry per node key and nothing else, each
    with the node's type as its class; when the node ids are pairwise
    distinct the keys of the map are the ids, as strings, in the order
    of the nodes. *)
Theorem compile_entries data flat :
  compile data = Ok flat →
  dict_wf flat ∧
  (∀ k, k ∈ dict_keys flat ↔ k ∈ node_key <$> nodes data) ∧
  (∀ nid e, (nid, e) ∈ flat →
     ∃ node, node ∈ nodes data ∧ nid = node_key node ∧
             class_type e = node_type node ∧ dict_wf (inputs e)) ∧
  (NoDup (node_id <$> nodes data) →
   dict_keys flat = node_key <$> nodes data).
Proof.
  unfold compile. intros Hc. split_and!.
  - eapply compile_nodes_wf; [done|]. apply NoDup_nil_2.
  - intros k. rewrite (compile_nodes_keys _ _ _ _ k Hc).
    cbn. rewrite elem_of_nil. tauto.
  - intros nid e Hin.
    destruct (compile_nodes_entry _ _ _ _ _ _ Hc Hin)
      as [Hnil|(node & c & Hnode & -> & Hn)]; [by apply elem_of_nil in Hnil|].
    exists node. split_and!; [done|done| |by eapply compile_node_wf].
    by apply compile_node_Ok in Hn as (st & _ & -> & _).
  - intros Hnd. rewrite (compile_nodes_order _ _ _ _ Hc); [done|].
    cbn [dict_keys fmap list_fmap app]. unfold node_key.
    rewrite (list_fmap_compose node_id str_Z).
    apply NoDup_fmap_2; [|done]. intros a b. apply str_Z_inj.
Qed.

Lemma compile_entries_witness :
  compile (scenario (JBool true)) = Ok scenario_flat ∧
  dict_keys scenario_flat = node_key <$> nodes (scenario (JBool true)).
Proof.
  assert (Hc : compile (scenario (JBool true)) = Ok scenario_flat)
    by (vm_compute; reflexivity).
  split; [exact Hc|].
  destruct (compile_entries _ _ Hc) as (_ & _ & _ & Hord).
  apply Hord. by_compute.
Defined.
End CompiledMap.

(** ** The hooks, one by one *)

Section HookEffects.
Implicit Types (flat : pydict flat_node) (node : flat_node).

Lemma dict_set_set {V} (d : pydict V) k v v' :
  dict_set (dict_set d k v) k v' = dict_set d k v'.
Proof.
  induction d as [|[k' w] d IH]; cbn [dict_set].
  - by rewrite String.eqb_refl.
  - destruct (String.eqb_spec k' k) as [->|Hne]; cbn [dict_set].
    + by rewrite String.eqb_refl.
    + destruct (String.eqb_spec k' k); [done|]. by rewrite IH.
Qed.

Lemma dict_has_keys {V} (d : pydict V) k :
  dict_has d k = true ↔ k ∈ dict_keys d.
Proof.
  unfold dict_has. destruct (dict_get d k) as [v|] eqn:Hget.
  - split; [intros _|done]. apply dict_get_Some_elem in Hget.
    by apply (list_elem_of_fmap_2 fst) in Hget.
  - split; [done|]. intros Hin. by apply dict_get_None in Hget.
Qed.

Lemma update_unet_fmap flat :
  update_unet flat = (λ kn, (kn.1, unet_fix kn.2)) <$> flat.
Proof.
  unfold update_unet. apply list_fmap_ext. intros _ [k n] _.
  unfold unet_fix. cbn [fst snd]. by destruct (_ && _).
Qed.

Lemma update_unet_get flat k :
  dict_get (update_unet flat) k = unet_fix <$> dict_get flat k.
Proof. rewrite update_unet_fmap. apply (dict_get_fmap unet_fix). Qed.

Lemma unet_fix_idem node : unet_fix (unet_fix node) = unet_fix node.
Proof.
  unfold unet_fix at 2.
  destruct (json_eq_str (class_type node) "UnetLoaderGGUF") eqn:Hc;
    cbn [andb]; [|unfold unet_fix; by rewrite Hc].
  destruct (dict_has (inputs node) "unet_name") eqn:Hh;
    [|unfold unet_fix; by rewrite Hc, Hh].
  unfold unet_fix. cbn [with_inputs class_type inputs]. rewrite Hc.
  assert (Hh' : dict_has (dict_set (inputs node) "unet_name" (JStr unet_file))
                  "unet_name" = true).
  { unfold dict_has. by rewrite dict_get_set_eq. }
  rewrite Hh'. cbn [andb]. by rewrite dict_set_set, Hh.
Qed.

(** The model-file override is idempotent, keeps every key, class and
    input name, rewrites ["unet_name"] exactly on the UnetLoaderGGUF nodes
    that already have it, and never adds it to a node that lacks it. *)
Theorem update_unet_effect flat :
  update_unet (update_unet flat) = update_unet flat ∧
  dict_keys (update_unet flat) = dict_keys flat ∧
  ∀ k node, dict_get flat k = Some node →
    ∃ node', dict_get (update_unet flat) k = Some node' ∧
      class_type node' = class_type node ∧
      dict_keys (inputs node') = dict_keys (inputs node) ∧
      (∀ nm, nm ≠ "unet_name" →
             dict_get (inputs node') nm = dict_get (inputs node) nm) ∧
      dict_get (inputs node') "unet_name"
      = (if json_eq_str (class_type node) "UnetLoaderGGUF"
         then (λ _, JStr unet_file) <$> dict_get (inputs node) "unet_name"
         else dict_get (inputs node) "unet_name").
Proof.
  split_and!.
  - rewrite !update_unet_fmap, <- list_fmap_compose.
    apply list_fmap_ext. intros _ [k n] _. cbn [compose fst snd].
    by rewrite unet_fix_idem.
  - apply update_unet_keys.
  - intros k node Hget. exists (unet_fix node).
    split; [by rewrite update_unet_get, Hget|].
    unfold unet_fix.
    destruct (json_eq_str (class_type node) "UnetLoaderGGUF") eqn:Hc;
      cbn [andb]; [|done].
    destruct (dict_has (inputs node) "unet_name") eqn:Hh.
    + cbn [with_inputs class_type inputs]. split_and!; [done| | |].
      * apply dict_set_keys_present. by apply dict_has_keys.
      * intros nm Hne. by apply dict_get_set_ne.
      * rewrite dict_get_set_eq. unfold dict_has in Hh.
        by destruct (dict_get (inputs node) "unet_name").
    + split_and!; try done. unfold dict_has in Hh.
      by destruct (dict_get (inputs node) "unet_name").
Qed.

Lemma update_unet_effect_witness :
  ∃ node', dict_get (update_unet scenario_flat) "1" = Some node' ∧
           class_type node' = JStr "TypeA".
Proof.
  destruct (proj2 (proj2 (update_unet_effect scenario_flat)) "1"
              {| class_type := JStr "TypeA"; inputs := [("x", JInt 5)] |}
              eq_refl) as (node' & Hget & Hc & _).
  exists node'. split; [exact Hget|exact Hc].
Defined.

Lemma find_clip_loader_update flat :
  find_clip_loader (update_unet flat) = find_clip_loader flat.
Proof.
  rewrite update_unet_fmap. induction flat as [|[k n] flat IH]; [done|].
  cbn [fmap list_fmap find_clip_loader fst snd].
  assert (Hc : class_type (unet_fix n) = class_type n).
  { unfold unet_fix. by destruct (_ && _). }
  rewrite Hc. by destruct (json_eq_str (class_type n) "CLIPLoader").
Qed.

(** [find_clip_loader] gives the first key, in insertion order, whose node
    is a CLIPLoader, and nothing when there is none. *)
Lemma find_clip_loader_first flat :
  match find_clip_loader flat with
  | Some cl =>
      ∃ pre node post, flat = pre ++ (cl, node) :: post ∧
        json_eq_str (class_type node) "CLIPLoader" = true ∧
        Forall (λ kn, json_eq_str (class_type kn.2) "CLIPLoader" = false) pre
  | None =>
      Forall (λ kn, json_eq_str (class_type kn.2) "CLIPLoader" = false) flat
  end.
Proof.
  induction flat as [|[k n] flat IH]; [by constructor|].
  cbn [find_clip_loader].
  destruct (json_eq_str (class_type n) "CLIPLoader") eqn:Hc.
  - exists [], n, flat. by split_and!.
  - destruct (find_clip_loader flat) as [cl|].
    + destruct IH as (pre & node & post & -> & Hn & Hpre).
      exists ((k, n) :: pre), node, post. split_and!; [done|done|].
      by constructor.
    + by constructor.
Qed.

Lemma add_negative_append flat neg_id cl :
  find_clip_loader flat = Some cl → cl ≠ "" → neg_id ∉ dict_keys flat →
  add_negative flat neg_id = flat ++ [(neg_id, negative_node cl)].
Proof.
  unfold add_negative. intros -> Hne Hfresh.
  destruct (String.eqb_spec cl ""); [done|]. by apply dict_set_fresh.
Qed.

Lemma add_negative_none flat neg_id :
  find_clip_loader flat = None → add_negative flat neg_id = flat.
Proof. unfold add_negative. by intros ->. Qed.

(** The negative prompt node is appended, wired to the first CLIPLoader,
    exactly when the map has a CLIPLoader; otherwise the map is left as
    it is.  (The new key is taken as not yet used and the loader's key as
    not empty, as is the case in the script.) *)
Theorem add_negative_effect flat neg_id :
  match find_clip_loader flat with
  | Some cl =>
      (∃ pre node post, flat = pre ++ (cl, node) :: post ∧
         json_eq_str (class_type node) "CLIPLoader" = true ∧
         Forall (λ kn, json_eq_str (class_type kn.2) "CLIPLoader" = false) pre) ∧
      (cl ≠ "" → neg_id ∉ dict_keys flat →
       add_negative flat neg_id = flat ++ [(neg_id, negative_node cl)])
  | None =>
      Forall (λ kn, json_eq_str (class_type kn.2) "CLIPLoader" = false) flat ∧
      add_negative flat neg_id = flat
  end.
Proof.
  pose proof (find_clip_loader_first flat) as Hfirst.
  destruct (find_clip_loader flat) as [cl|] eqn:Hcl.
  - split; [done|]. by apply add_negative_append.
  - split; [done|]. by apply add_negative_none.
Qed.

Lemma add_negative_effect_witness :
  add_negative [("7", {| class_type := JStr "CLIPLoader"; inputs := [] |})] "8"
  = [("7", {| class_type := JStr "CLIPLoader"; inputs := [] |});
     ("8", negative_node "7")].
Proof.
  pose proof (add_negative_effect
                [("7", {| class_type := JStr "CLIPLoader"; inputs := [] |})]
                "8") as H.
  cbn [find_clip_loader class_type json_eq_str String.eqb Ascii.eqb
         Bool.eqb] in H.
  destruct H as [_ H]. apply H; [done|by_compute].
Defined.
End HookEffects.

(** ** Forced links *)

Section ForcedLinks.
Implicit Types (flat : pydict flat_node) (node : flat_node)
  (calls : list (string * string * string)).

Lemma set_link_get flat nid nm src slot k :
  dict_get (set_link flat nid nm src slot) k
  = if String.eqb (py_str nid) k
    then (λ node, with_inputs node
                    (dict_set (inputs node) nm (reference (py_str src) slot)))
           <$> dict_get flat k
    else dict_get flat k.
Proof.
  unfold set_link. destruct (String.eqb_spec (py_str nid) k) as [<-|Hne].
  - destruct (dict_get flat (py_str nid)) as [node|] eqn:Hget.
    + by rewrite dict_get_set_eq.
    + by rewrite Hget.
  - destruct (dict_get flat (py_str nid)) as [node|]; [|done].
    by apply dict_get_set_ne.
Qed.

(** Applying the same [set_link] twice is the same as applying it once. *)
Theorem set_link_idempotent flat nid nm src slot :
  set_link (set_link flat nid nm src slot) nid nm src slot
  = set_link flat nid nm src slot.
Proof.
  unfold set_link at 1. rewrite set_link_get, String.eqb_refl.
  destruct (dict_get flat (py_str nid)) as [node|] eqn:Hget;
    cbn [fmap option_fmap option_map]; [|done].
  unfold set_link. rewrite Hget, dict_set_set.
  cbn [with_inputs class_type inputs]. by rewrite dict_set_set.
Qed.

Lemma set_links_cons flat c calls :
  set_links flat (c :: calls)
  = set_links (set_link flat (IdStr c.1.1) c.1.2 (IdStr c.2) 0) calls.
Proof. done. Qed.

Lemma set_links_None flat calls k :
  dict_get flat k = None → dict_get (set_links flat calls) k = None.
Proof.
  revert flat. induction calls as [|c calls IH]; intros flat Hget; [done|].
  rewrite set_links_cons. apply IH. rewrite set_link_get.
  destruct (String.eqb _ k); by rewrite Hget.
Qed.

Lemma set_links_untargeted flat calls k :
  k ∉ (λ c : string * string * string, c.1.1) <$> calls →
  dict_get (set_links flat calls) k = dict_get flat k.
Proof.
  revert flat. induction calls as [|c calls IH]; intros flat; [done|].
  rewrite fmap_cons. intros [Hne Hnin]%not_elem_of_cons.
  rewrite set_links_cons, IH by done. rewrite set_link_get. cbn [py_str].
  by destruct (String.eqb_spec c.1.1 k).
Qed.

Lemma set_links_frame flat calls k node :
  dict_get flat k = Some node →
  ∃ node', dict_get (set_links flat calls) k = Some node' ∧
    class_type node' = class_type node ∧
    ∀ nm, (∀ p, (k, nm, p) ∉ calls) →
          dict_get (inputs node') nm = dict_get (inputs node) nm.
Proof.
  revert flat node. induction calls as [|c calls IH]; intros flat node Hget.
  - exists node. by split_and!.
  - rewrite set_links_cons.
    set (flat1 := set_link flat (IdStr c.1.1) c.1.2 (IdStr c.2) 0).
    assert (H1 : ∃ node1, dict_get flat1 k = Some node1 ∧
              class_type node1 = class_type node ∧
              ∀ nm, (∀ p, (k, nm, p) ≠ c) →
                    dict_get (inputs node1) nm = dict_get (inputs node) nm).
    { unfold flat1. rewrite set_link_get, Hget. cbn [py_str].
      destruct (String.eqb_spec c.1.1 k) as [Heq|Hne].
      - eexists. split; [done|]. split; [done|].
        intros nm Hnm. cbn [with_inputs inputs]. apply dict_get_set_ne.
        intros ->. apply (Hnm c.2). destruct c as [[t nm'] p].
        cbn in *. by subst.
      - exists node. by split_and!. }
    destruct H1 as (node1 & Hget1 & Hc1 & Hin1).
    destruct (IH flat1 node1 Hget1) as (node' & Hget' & Hc' & Hin').
    exists node'. split_and!; [done|congruence|].
    intros nm Hnm. rewrite Hin', Hin1; [done| |].
    + intros p Heq. apply (Hnm p). rewrite Heq. by left.
    + intros p Hp. apply (Hnm p). by right.
Qed.

Lemma set_links_effect flat calls t nm p node :
  (t, nm, p) ∈ calls → (∀ p', (t, nm, p') ∈ calls → p' = p) →
  dict_get flat t = Some node →
  ∃ node', dict_get (set_links flat calls) t = Some node' ∧
           dict_get (inputs node') nm = Some (reference p 0).
Proof.
  revert flat node. induction calls as [|c calls IH]; intros flat node Hin Huniq Hget.
  - by apply elem_of_nil in Hin.
  - rewrite set_links_cons.
    set (flat1 := set_link flat (IdStr c.1.1) c.1.2 (IdStr c.2) 0).
    assert (Huniq' : ∀ p', (t, nm, p') ∈ calls → p' = p).
    { intros p' Hp'. apply Huniq. by right. }
    destruct (decide ((t, nm, p) ∈ calls)) as [Hlater|Hlast].
    + assert (H1 : ∃ node1, dict_get flat1 t = Some node1).
      { unfold flat1. rewrite set_link_get, Hget.
        destruct (String.eqb _ t); by eexists. }
      destruct H1 as [node1 Hget1]. by eapply IH.
    + apply elem_of_cons in Hin as [<-|Hin]; [|done].
      assert (Hget1 : dict_get flat1 t
                = Some (with_inputs node
                          (dict_set (inputs node) nm (reference p 0)))).
      { unfold flat1. rewrite set_link_get, Hget. cbn [py_str fst snd].
        by rewrite String.eqb_refl. }
      destruct (set_links_frame flat1 calls t _ Hget1)
        as (node' & Hget' & _ & Hin').
      exists node'. split; [done|]. rewrite Hin'.
      * cbn [with_inputs inputs]. apply dict_get_set_eq.
      * intros p' Hp'. apply Hlast. by rewrite <- (Huniq' p' Hp').
Qed.

Lemma wire_set_links flat neg_id :
  wire flat neg_id = set_links flat (forced_links neg_id).
Proof. reflexivity. Qed.

Lemma forced_links_targets neg_id :
  (λ c : string * string * string, c.1.1) <$> forced_links neg_id
  = ["8"; "55"; "28"; "54"; "11"; "56"; "28"; "54"; "28"; "54"].
Proof. reflexivity. Qed.

Lemma wire_node_frame flat neg_id k node :
  dict_get flat k = Some node →
  ∃ node', dict_get (wire flat neg_id) k = Some node' ∧
    class_type node' = class_type node ∧
    ∀ nm, nm ∉ forced_names →
          dict_get (inputs node') nm = dict_get (inputs node) nm.
Proof.
  rewrite wire_set_links. intros Hget.
  destruct (set_links_frame flat (forced_links neg_id) k node Hget)
    as (node' & Hget' & Hc & Hin).
  exists node'. split_and!; [done|done|].
  intros nm Hnm. apply Hin. intros p Hp. apply Hnm.
  unfold forced_links in Hp. unfold forced_names.
  rewrite !elem_of_cons in Hp. rewrite !elem_of_cons.
  destruct Hp as [Hp|[Hp|[Hp|[Hp|[Hp|[Hp|[Hp|[Hp|[Hp|[Hp|Hp]]]]]]]]]];
    try (by apply elem_of_nil in Hp); simplify_eq; tauto.
Qed.

(** The forced links leave alone every node whose id is not one of their
    six targets, never add or remove a node, never change a class, and on
    a target touch only the inputs model, vae, positive and negative. *)
Theorem wire_frame flat neg_id k :
  (dict_get flat k = None → dict_get (wire flat neg_id) k = None) ∧
  (k ∉ forced_targets → dict_get (wire flat neg_id) k = dict_get flat k) ∧
  (∀ node, dict_get flat k = Some node →
     ∃ node', dict_get (wire flat neg_id) k = Some node' ∧
       class_type node' = class_type node ∧
       ∀ nm, nm ∉ forced_names →
             dict_get (inputs node') nm = dict_get (inputs node) nm).
Proof.
  rewrite wire_set_links. split_and!.
  - apply set_links_None.
  - intros Hk. apply set_links_untargeted. rewrite forced_links_targets.
    intros Hin. apply Hk. unfold forced_targets.
    rewrite !elem_of_cons in Hin. rewrite !elem_of_cons. tauto.
  - intros node Hget. rewrite <- wire_set_links. by apply wire_node_frame.
Qed.

Lemma wire_frame_witness :
  dict_get (wire scenario_flat "3") "1" = dict_get scenario_flat "1".
Proof.
  apply (wire_frame scenario_flat "3" "1"). by_compute.
Defined.

(** Each forced link whose target node is in the map ends up in the
    output: the named input of the target is the Reference to the
    hard-wired producer with slot 0, whatever the input held before and
    whether or not the producer exists. *)
Theorem wire_effect flat neg_id t nm p node :
  (t, nm, p) ∈ forced_links neg_id → dict_get flat t = Some node →
  ∃ node', dict_get (wire flat neg_id) t = Some node' ∧
           dict_get (inputs node') nm = Some (reference p 0).
Proof.
  intros Hin Hget. rewrite wire_set_links.
  eapply set_links_effect; [exact Hin| |exact Hget].
  intros p' Hp'. unfold forced_links in Hin, Hp'.
  rewrite !elem_of_cons in Hin. rewrite !elem_of_cons in Hp'.
  destruct Hin as [Hi|[Hi|[Hi|[Hi|[Hi|[Hi|[Hi|[Hi|[Hi|[Hi|Hi]]]]]]]]]];
    try (by apply elem_of_nil in Hi); simplify_eq;
    destruct Hp' as [Hq|[Hq|[Hq|[Hq|[Hq|[Hq|[Hq|[Hq|[Hq|[Hq|Hq]]]]]]]]]];
    try (by apply elem_of_nil in Hq); by simplify_eq.
Qed.

Lemma wire_effect_witness :
  ∃ node', dict_get (wire lone_flat "9") "8" = Some node' ∧
           dict_get (inputs node') "model" = Some (reference "32" 0).
Proof.
  apply (wire_effect lone_flat "9" "8" "model" "32"
           {| class_type := JStr "KSampler";
              inputs := [("model", reference "32" 0)] |}).
  - unfold forced_links. by left.
  - reflexivity.
Defined.
End ForcedLinks.

(** ** The whole of [convert_aio.py] *)

Section WholeScript.
Implicit Types (data : raw_graph) (flat : pydict flat_node).

Lemma flat_wf_set flat k node :
  flat_wf flat → dict_wf (inputs node) → flat_wf (dict_set flat k node).
Proof.
  intros [Hd Hi] Hn. split; [by apply dict_set_wf|].
  apply Forall_forall. intros [k' n'] [[-> ->]|Hin]%dict_set_elem; [done|].
  rewrite Forall_forall in Hi. exact (Hi _ Hin).
Qed.

Lemma update_unet_wf flat : flat_wf flat → flat_wf (update_unet flat).
Proof.
  intros [Hd Hi]. split.
  - unfold dict_wf. by rewrite update_unet_keys.
  - rewrite update_unet_fmap. apply Forall_forall.
    intros [k n'] ([k0 n] & [= -> ->] & Hin)%list_elem_of_fmap. cbn [snd].
    rewrite Forall_forall in Hi. specialize (Hi _ Hin). cbn [snd] in Hi.
    unfold unet_fix. destruct (_ && _); [|done].
    cbn [with_inputs inputs]. by apply dict_set_wf.
Qed.

Lemma add_negative_wf flat neg_id :
  flat_wf flat → flat_wf (add_negative flat neg_id).
Proof.
  intros Hwf. unfold add_negative.
  destruct (find_clip_loader flat) as [cl|]; [|done].
  destruct (String.eqb cl ""); [done|].
  apply flat_wf_set; [done|]. unfold dict_wf. cbn. by_compute.
Qed.

Lemma set_link_wf flat nid nm src slot :
  flat_wf flat → flat_wf (set_link flat nid nm src slot).
Proof.
  intros Hwf. unfold set_link.
  destruct (dict_get flat (py_str nid)) as [node|] eqn:Hget; [|done].
  apply flat_wf_set; [done|]. cbn [with_inputs inputs]. apply dict_set_wf.
  eapply flat_wf_inputs; [done|]. by apply dict_get_Some_elem.
Qed.

Lemma wire_wf flat neg_id : flat_wf flat → flat_wf (wire flat neg_id).
Proof.
  rewrite wire_set_links. generalize (forced_links neg_id). intros calls.
  revert flat. induction calls as [|c calls IH]; intros flat Hwf; [done|].
  rewrite set_links_cons. apply IH. by apply set_link_wf.
Qed.

(** Whatever the script writes is a dictionary at both levels: no node
    key and no input name occurs twice, so the document meets what the
    extractor expects of its input. *)
Theorem convert_wf data flat : convert data = Ok flat → flat_wf flat.
Proof.
  intros (flat0 & m & Hc & _ & ->)%convert_Ok.
  apply wire_wf, add_negative_wf, update_unet_wf.
  by apply (compile_flat_wf data).
Qed.

Lemma convert_wf_witness :
  convert wired_pair = Ok wired_flat ∧ flat_wf wired_flat.
Proof.
  assert (Hc : convert wired_pair = Ok wired_flat) by (vm_compute; reflexivity).
  split; [exact Hc|exact (convert_wf wired_pair wired_flat Hc)].
Defined.

Lemma compile_keys_nonempty data flat k :
  compile data = Ok flat → k ∈ dict_keys flat → k ≠ "".
Proof.
  intros Hc Hk. apply (compile_keys data flat k Hc) in Hk.
  apply list_elem_of_fmap in Hk as (node & -> & _).
  apply str_Z_nonempty.
Qed.

(** The keys of the output are the keys of the compiled nodes, in order,
    followed by the id of the negative node exactly when a CLIPLoader was
    compiled; that node then is a CLIPTextEncode whose clip input
    references the first CLIPLoader and whose text is empty. *)
Theorem convert_keys data flat :
  convert data = Ok flat →
  ∃ flat0 m, compile data = Ok flat0 ∧ max_id (nodes data) = Ok m ∧
    match find_clip_loader flat0 with
    | Some cl =>
        dict_keys flat = dict_keys flat0 ++ [str_Z (m + 1)] ∧
        ∃ node', dict_get flat (str_Z (m + 1)) = Some node' ∧
          class_type node' = JStr "CLIPTextEncode" ∧
          dict_get (inputs node') "clip" = Some (reference cl 0) ∧
          dict_get (inputs node') "text" = Some (JStr "")
    | None => dict_keys flat = dict_keys flat0
    end.
Proof.
  intros (flat0 & m & Hc & Hm & ->)%convert_Ok. exists flat0, m.
  split_and!; [done|done|]. rewrite wire_keys.
  pose proof (find_clip_loader_update flat0) as Hupd.
  destruct (find_clip_loader flat0) as [cl|] eqn:Hcl.
  - pose proof (add_negative_append (update_unet flat0) (str_Z (m + 1)) cl
                  Hupd) as Hneg.
    assert (Hne : cl ≠ "").
    { eapply compile_keys_nonempty; [done|]. by apply find_clip_loader_key. }
    assert (Hfresh : str_Z (m + 1) ∉ dict_keys (update_unet flat0)).
    { rewrite update_unet_keys, (compile_keys data flat0 _ Hc).
      by apply neg_id_not_key. }
    rewrite (Hneg Hne Hfresh).
    split.
    + unfold dict_keys. rewrite fmap_app. fold (dict_keys (update_unet flat0)).
      by rewrite update_unet_keys.
    + assert (Hget : dict_get (update_unet flat0 ++ [(str_Z (m + 1), negative_node cl)])
                       (str_Z (m + 1)) = Some (negative_node cl)).
      { rewrite <- (dict_set_fresh _ _ _ Hfresh). apply dict_get_set_eq. }
      destruct (wire_node_frame _ (str_Z (m + 1)) _ _ Hget)
        as (node' & Hget' & Hclass & Hin).
      exists node'. split_and!; [done|done| |].
      * rewrite Hin; [done|]. unfold forced_names. by_compute.
      * rewrite Hin; [done|]. unfold forced_names. by_compute.
  - rewrite add_negative_none by done. apply update_unet_keys.
Qed.

Lemma convert_keys_witness :
  ∃ flat0 m, compile clip_graph = Ok flat0 ∧ max_id (nodes clip_graph) = Ok m.
Proof.
  destruct (convert_keys clip_graph
              [("7", {| class_type := JStr "CLIPLoader"; inputs := [] |});
               ("8", {| class_type := JStr "CLIPTextEncode";
                        inputs := [("clip", reference "7" 0); ("text", JStr "");
                                   ("model", reference "32" 0)] |})])
    as (flat0 & m & Hc & Hm & _); [vm_compute; reflexivity|].
  by exists flat0, m.
Defined.

(** Every node of the graph is in the output under its id, with its type
    as class: the hooks never drop a compiled node or change its class.
    (For an id used more than once, the last node with it.) *)
Theorem convert_keeps_nodes data flat pre node post :
  convert data = Ok flat →
  nodes data = pre ++ node :: post → node_key node ∉ node_key <$> post →
  ∃ e, dict_get flat (node_key node) = Some e ∧
       class_type e = node_type node.
Proof.
  intros (flat0 & m & Hc & Hm & ->)%convert_Ok Hsplit Hlast.
  unfold compile in Hc. rewrite Hsplit in Hc.
  destruct (compile_nodes_last _ _ _ _ _ _ Hc Hlast) as (e0 & c & Hn & Hget0).
  assert (Hclass0 : class_type e0 = node_type node).
  { by apply compile_node_Ok in Hn as (st & _ & -> & _). }
  assert (Hne : node_key node ≠ str_Z (m + 1)).
  { intros Heq. apply (neg_id_not_key _ _ Hm). rewrite <- Heq, Hsplit.
    apply list_elem_of_fmap_2, elem_of_app. right. by left. }
  assert (Hget1 : dict_get (add_negative (update_unet flat0) (str_Z (m + 1)))
                    (node_key node) = Some (unet_fix e0)).
  { unfold add_negative.
    destruct (find_clip_loader _); [destruct (String.eqb _ "")|];
      try rewrite dict_get_set_ne by done; by rewrite update_unet_get, Hget0. }
  destruct (wire_node_frame _ (str_Z (m + 1)) _ _ Hget1)
    as (e & Hget & Hclass & _).
  exists e. split; [done|]. rewrite Hclass, <- Hclass0.
  unfold unet_fix. by destruct (_ && _).
Qed.

Lemma convert_keeps_nodes_witness :
  ∃ e, dict_get wired_flat "8" = Some e ∧ class_type e = JStr "KSampler".
Proof.
  apply (convert_keeps_nodes wired_pair wired_flat
           [{| node_id := 32; node_type := JStr "ModelSamplingSD3";
               node_inputs := []; widgets_values := JList [JInt 8] |}]
           {| node_id := 8; node_type := JStr "KSampler";
              node_inputs := [{| name := "model"; link := Some 1;
                                 widget := None |}];
              widgets_values := JList [JInt 42] |} []).
  - vm_compute. reflexivity.
  - reflexivity.
  - apply not_elem_of_nil.
Defined.

(** A graph without nodes makes the script die of a ValueError, at the
    [max] of line 68, whatever its links are.  And whenever the script
    writes a document, the graph has at least one node and every link id
    declared on a port is in the links table. *)
Theorem convert_outcome data :
  (nodes data = [] → convert data = Raise ValueError) ∧
  (∀ flat, convert data = Ok flat →
     nodes data ≠ [] ∧
     Forall (λ node,
               links_present (links_index (links data)) (node_inputs node))
       (nodes data)).
Proof.
  split.
  - intros Hnil. unfold convert, compile. by rewrite Hnil.
  - intros flat (flat0 & m & Hc & Hm & _)%convert_Ok. split.
    + intros Hnil. by rewrite Hnil in Hm.
    + apply Forall_forall. intros node Hnode. apply Forall_forall.
      intros inp Hinp lid Hl.
      destruct (links_index (links data) !! lid) as [l|] eqn:Ht; [by eexists|].
      destruct (compile_nodes_missing _ [] (nodes data) node inp lid
                  Hnode Hinp Hl Ht) as (lid' & Hr & _).
      unfold compile in Hc. congruence.
Qed.

Lemma convert_outcome_witness :
  convert {| nodes := []; links := links (scenario JNull) |} = Raise ValueError ∧
  nodes wired_pair ≠ [].
Proof.
  split.
  - exact (proj1 (convert_outcome
                    {| nodes := []; links := links (scenario JNull) |})
             eq_refl).
  - assert (Hc : convert wired_pair = Ok wired_flat)
      by (vm_compute; reflexivity).
    exact (proj1 (proj2 (convert_outcome wired_pair) wired_flat Hc)).
Defined.
End WholeScript.

(** ** Which inputs an entry has *)

Section EntryInputs.
Implicit Types (table : gmap Z link_row) (node : raw_node)
  (st : pydict json * nat) (inp : port) (inps : list port).

Lemma bind_input_names table widgets mapping st inp st' nm :
  bind_input table widgets mapping st inp = Ok st' →
  nm ∈ dict_keys st'.1 →
  nm ∈ dict_keys st.1 ∨
  (nm = name inp ∧ (linked inp = true ∨ widget_flagged inp = true)).
Proof.
  destruct st as [ins idx]. unfold bind_input, linked, widget_flagged.
  intros H Hin.
  destruct (link inp) as [lid|].
  - destruct (table !! lid); [|done]. simplify_eq. cbn [fst] in *.
    apply dict_keys_set in Hin as [->|Hin]; [right|left]; by eauto.
  - destruct (truthy_opt (widget inp)); [|simplify_eq; by left].
    repeat case_match; simplify_eq; cbn [fst] in *;
      try (by left);
      (apply dict_keys_set in Hin as [->|Hin]; [right|left]; by eauto).
Qed.

Lemma bind_inputs_names table widgets mapping st inps st' nm :
  bind_inputs table widgets mapping st inps = Ok st' →
  nm ∈ dict_keys st'.1 →
  nm ∈ dict_keys st.1 ∨
  ∃ inp, inp ∈ inps ∧ nm = name inp ∧
         (linked inp = true ∨ widget_flagged inp = true).
Proof.
  revert st. induction inps as [|inp inps IH]; intros st.
  - intros [= ->]. by left.
  - intros (st2 & H2 & Hrest)%bind_inputs_cons_Ok Hin.
    destruct (IH _ Hrest Hin) as [Hst2|(inp' & Hi & H)].
    + destruct (bind_input_names _ _ _ _ _ _ _ H2 Hst2) as [?|[-> ?]];
        [by left|]. right. exists inp. split; [by left|done].
    + right. exists inp'. split; [by right|done].
Qed.

(** An entry never has an input that the node does not declare: every
    input name of the entry is the name of a port that carries a link or
    the widget flag.  A port with neither is left out. *)
Theorem compile_node_inputs table node e c :
  compile_node table node = Ok (e, c) →
  dict_wf (inputs e) ∧
  (∀ nm, nm ∈ dict_keys (inputs e) →
     ∃ inp, inp ∈ node_inputs node ∧ nm = name inp ∧
            (linked inp = true ∨ widget_flagged inp = true)) ∧
  (NoDup (name <$> node_inputs node) →
   ∀ inp, inp ∈ node_inputs node →
     linked inp = false → widget_flagged inp = false →
     dict_get (inputs e) (name inp) = None).
Proof.
  intros Hn. split; [by eapply compile_node_wf|].
  apply compile_node_Ok in Hn as (st & Hrun & -> & _). cbn [inputs].
  split.
  - intros nm Hin.
    destruct (bind_inputs_names _ _ _ _ _ _ _ Hrun Hin) as [Hnil|H]; [|done].
    by apply elem_of_nil in Hnil.
  - intros Hnd inp Hinp Hl Hw. apply dict_get_None. intros Hin.
    destruct (bind_inputs_names _ _ _ _ _ _ _ Hrun Hin)
      as [Hnil|(inp' & Hinp' & Hname & Hor)]; [by apply elem_of_nil in Hnil|].
    assert (inp' = inp) as ->.
    { apply list_elem_of_lookup in Hinp as [i Hi].
      apply list_elem_of_lookup in Hinp' as [j Hj].
      assert (i = j) as ->; [|congruence].
      eapply NoDup_lookup; [exact Hnd| |];
        rewrite list_lookup_fmap; [by rewrite Hi|by rewrite Hj, Hname]. }
    destruct Hor; congruence.
Qed.

Lemma compile_node_inputs_witness :
  compile_node one_link keyed_node
  = Ok ({| class_type := JStr "K"; inputs := [("b", JInt 2)] |}, 0%nat) ∧
  dict_wf [("b", JInt 2)].
Proof.
  assert (Hn : compile_node one_link keyed_node
               = Ok ({| class_type := JStr "K"; inputs := [("b", JInt 2)] |},
                     0%nat)) by (vm_compute; reflexivity).
  split; [exact Hn|].
  exact (proj1 (compile_node_inputs one_link keyed_node _ _ Hn)).
Defined.

Lemma bind_inputs_at_name table widgets mapping inps k inp st3 :
  NoDup (name <$> inps) → inps !! k = Some inp →
  bind_inputs table widgets mapping ([], 0%nat) inps = Ok st3 →
  ∃ st1 st2,
    bind_input table widgets mapping st1 inp = Ok st2 ∧
    dict_get st1.1 (name inp) = None ∧
    dict_get st3.1 (name inp) = dict_get st2.1 (name inp).
Proof.
  intros Hnd Hk Hrun.
  rewrite <- (take_drop_middle inps k inp Hk) in Hrun, Hnd.
  rewrite fmap_app, fmap_cons in Hnd.
  apply NoDup_app in Hnd as (_ & Hpre & [Hpost _]%NoDup_cons).
  apply bind_inputs_last in Hrun as (st1 & st2 & H1 & H2 & H3 & Hget);
    [|done].
  exists st1, st2. split_and!; try done.
  rewrite (bind_inputs_other _ _ _ _ _ _ _ H1); [done|].
  intros Hin. apply (Hpre _ Hin). by left.
Qed.

Lemma bind_input_cursor_fixed table widgets mapping st inp st' :
  is_list widgets = false →
  bind_input table widgets mapping st inp = Ok st' → st'.2 = st.2.
Proof.
  destruct st as [ins idx]. unfold bind_input. intros Hl H.
  rewrite Hl, andb_false_r in H.
  destruct widgets; try done; repeat case_match; by simplify_eq.
Qed.

Lemma bind_inputs_cursor_fixed table widgets mapping st inps st' :
  is_list widgets = false →
  bind_inputs table widgets mapping st inps = Ok st' → st'.2 = st.2.
Proof.
  intros Hl. revert st. induction inps as [|inp inps IH]; intros st.
  - by intros [= ->].
  - intros (st2 & H2 & Hrest)%bind_inputs_cons_Ok.
    rewrite (IH _ Hrest). by eapply bind_input_cursor_fixed.
Qed.

(** Keyed widgets: an unlinked widget-flagged port is bound to the value
    stored under its own name and is left out when the mapping has no
    such key; keys of the mapping that name no flagged port are ignored,
    the cursor stays at 0 and no type-specific override applies. *)
Theorem keyed_binding table node kv e c :
  widgets_values node = JDict kv →
  compile_node table node = Ok (e, c) →
  NoDup (name <$> node_inputs node) →
  c = 0%nat ∧ mapping_of node = None ∧
  ∀ inp, inp ∈ node_inputs node →
    linked inp = false → widget_flagged inp = true →
    dict_get (inputs e) (name inp) = dict_get kv (name inp).
Proof.
  intros Hkv (st3 & Hrun & -> & ->)%compile_node_Ok Hnd.
  assert (Hm : mapping_of node = None) by (unfold mapping_of; by rewrite Hkv).
  rewrite Hkv, Hm in Hrun. cbn [inputs]. split_and!.
  - by rewrite (bind_inputs_cursor_fixed table (JDict kv) None _ _ _
                  eq_refl Hrun).
  - done.
  - intros inp [k Hk]%list_elem_of_lookup Hl Hw.
    destruct (bind_inputs_at_name _ _ _ _ _ _ _ Hnd Hk Hrun)
      as (st1 & st2 & H2 & Hnone & ->).
    destruct st1 as [ins idx]. unfold bind_input, linked, widget_flagged in *.
    destruct (link inp); [done|]. rewrite Hw in H2. cbn [mapping_get] in H2.
    destruct (dict_get kv (name inp)) as [v|]; simplify_eq; cbn [fst] in *;
      [apply dict_get_set_eq|done].
Qed.

Lemma keyed_binding_witness :
  compile_node one_link keyed_node
  = Ok ({| class_type := JStr "K"; inputs := [("b", JInt 2)] |}, 0%nat) ∧
  dict_get [("b", JInt 2)] "a"
  = dict_get [("b", JInt 2); ("c", JInt 3); ("z", JInt 9)] "a".
Proof.
  assert (Hn : compile_node one_link keyed_node
               = Ok ({| class_type := JStr "K"; inputs := [("b", JInt 2)] |},
                     0%nat)) by (vm_compute; reflexivity).
  split; [exact Hn|].
  assert (Hnd : NoDup (name <$> node_inputs keyed_node)) by by_compute.
  destruct (keyed_binding one_link keyed_node _ _ _ eq_refl Hn Hnd)
    as (_ & _ & Hb).
  apply (Hb {| name := "a"; link := None; widget := flag |});
    [by left|reflexivity|reflexivity].
Defined.

(** A node whose widgets are neither a list nor a mapping (absent, for
    one) gets its linked inputs and nothing else: every input of the
    entry is the Reference of a declared link, and the cursor stays 0. *)
Theorem no_widgets_binding table node e c :
  (∀ ws, widgets_values node ≠ JList ws) →
  (∀ kv, widgets_values node ≠ JDict kv) →
  compile_node table node = Ok (e, c) →
  c = 0%nat ∧
  ∀ nm val, (nm, val) ∈ inputs e →
    ∃ inp lid l, inp ∈ node_inputs node ∧ name inp = nm ∧
      link inp = Some lid ∧ table !! lid = Some l ∧
      val = reference (str_Z (src_node l)) (src_slot l).
Proof.
  intros Hnl Hnd (st3 & Hrun & -> & ->)%compile_node_Ok.
  assert (Hm : mapping_of node = None).
  { unfold mapping_of. destruct (widgets_values node) eqn:Hw; try done.
    by destruct (Hnl l). }
  assert (Hl : is_list (widgets_values node) = false).
  { destruct (widgets_values node) eqn:Hw; try done. by destruct (Hnl l). }
  rewrite Hm in Hrun. cbn [inputs]. split.
  - by rewrite (bind_inputs_cursor_fixed _ _ _ _ _ _ Hl Hrun).
  - revert Hrun. generalize (node_inputs node). intros inps.
    assert (Hgen : ∀ st, bind_inputs table (widgets_values node) None st inps
                         = Ok st3 →
              ∀ nm val, (nm, val) ∈ st3.1 → (nm, val) ∈ st.1 ∨
                ∃ inp lid l, inp ∈ inps ∧ name inp = nm ∧
                  link inp = Some lid ∧ table !! lid = Some l ∧
                  val = reference (str_Z (src_node l)) (src_slot l)).
    { induction inps as [|inp inps IH]; intros st.
      - intros [= ->] nm val Hin. by left.
      - intros (st2 & H2 & Hrest)%bind_inputs_cons_Ok nm val Hin.
        destruct (IH _ Hrest nm val Hin)
          as [Hst2|(inp' & lid & l & Hi & H)].
        + destruct st as [ins idx]. unfold bind_input in H2.
          destruct (link inp) as [lid|] eqn:Hlk.
          * destruct (table !! lid) as [l|] eqn:Ht; [|done]. simplify_eq.
            cbn [fst] in *.
            apply dict_set_elem in Hst2 as [[-> ->]|Hst2]; [|by left].
            right. exists inp, lid, l. split_and!; try done. by left.
          * left. cbn [mapping_get] in H2.
            destruct (truthy_opt (widget inp)); [|by simplify_eq].
            destruct (widgets_values node) as [| | | | |ws|kv] eqn:Hw;
              try (by simplify_eq); [by destruct (Hnl ws)..|].
            by destruct (Hnd kv).
        + right. exists inp', lid, l. split; [by right|done]. }
    intros Hrun nm val Hin.
    destruct (Hgen _ Hrun nm val Hin) as [Hnil|H]; [|done].
    by apply elem_of_nil in Hnil.
Qed.

Lemma no_widgets_binding_witness :
  compile_node one_link bare_node
  = Ok ({| class_type := JStr "B"; inputs := [("y", reference "1" 0)] |},
        0%nat) ∧
  ∃ inp lid l, inp ∈ node_inputs bare_node ∧ name inp = "y" ∧
    link inp = Some lid ∧ one_link !! lid = Some l ∧
    reference "1" 0 = reference (str_Z (src_node l)) (src_slot l).
Proof.
  assert (Hn : compile_node one_link bare_node
               = Ok ({| class_type := JStr "B";
                        inputs := [("y", reference "1" 0)] |}, 0%nat))
    by (vm_compute; reflexivity).
  split; [exact Hn|].
  destruct (no_widgets_binding one_link bare_node _ _
              ltac:(intros ws; discriminate) ltac:(intros kv; discriminate) Hn)
    as [_ Hb].
  apply (Hb "y" (reference "1" 0)). by left.
Defined.
End EntryInputs.

Section LinkTable.
Implicit Types (rows : list link_row) (m : gmap Z link_row).

Lemma links_fold_other m rows lid :
  lid ∉ link_id <$> rows →
  foldl (fun m l => <[link_id l := l]> m) m rows !! lid = m !! lid.
Proof.
  revert m. induction rows as [|r rows IH]; intros m; [done|].
  rewrite fmap_cons. intros [Hne Hnin]%not_elem_of_cons.
  cbn [foldl]. rewrite IH by done. by apply lookup_insert_ne.
Qed.

(** When several rows of [data['links']] carry one id, the table holds
    the last of them; a lookup finds a row exactly for the ids that
    occur, and the row found has the id asked for. *)
Theorem links_index_last pre r post :
  link_id r ∉ link_id <$> post →
  links_index (pre ++ r :: post) !! link_id r = Some r.
Proof.
  intros Hlast. unfold links_index. rewrite foldl_app. cbn [foldl].
  rewrite links_fold_other by done. apply lookup_insert_eq.
Qed.

Lemma links_index_last_witness :
  links_index
    ([{| link_id := 10; src_node := 1; src_slot := 0;
         dst_node := 2; dst_slot := 0 |}]
     ++ {| link_id := 10; src_node := 5; src_slot := 1;
           dst_node := 2; dst_slot := 0 |} :: []) !! 10
  = Some {| link_id := 10; src_node := 5; src_slot := 1;
            dst_node := 2; dst_slot := 0 |}.
Proof.
  apply (links_index_last
           [{| link_id := 10; src_node := 1; src_slot := 0;
               dst_node := 2; dst_slot := 0 |}]
           {| link_id := 10; src_node := 5; src_slot := 1;
              dst_node := 2; dst_slot := 0 |} []).
  apply not_elem_of_nil.
Defined.
End LinkTable.

(** ** [build] and the state it leaves behind *)

Section BuildSequence.
Implicit Types (keep : gset string) (flat : pydict flat_node).

Lemma prompt_after_keys flat keep :
  dict_wf flat → dict_keys (prompt_after flat keep) = dict_keys flat.
Proof.
  intros Hwf. rewrite prompt_after_spec by done. unfold dict_keys.
  rewrite <- list_fmap_compose. by apply list_fmap_ext.
Qed.

(** [build] keeps every key of [prompt], leaves the nodes it did not
    select as they were, and leaves each selected node with the pruned
    inputs it has just written out. *)
Theorem build_mutation flat keep :
  dict_wf flat →
  dict_keys (prompt_after flat keep) = dict_keys flat ∧
  ∀ nid, dict_get (prompt_after flat keep) nid
         = (λ node, if decide (nid ∈ keep) then prune_node keep node else node)
             <$> dict_get flat nid.
Proof.
  intros Hwf. split; [by apply prompt_after_keys|].
  intros nid. by apply build_frame.
Qed.

Lemma build_mutation_witness :
  dict_get (prompt_after two_nodes i2v_ids) "28" = dict_get two_nodes "28".
Proof.
  destruct two_nodes_wf as [Hwf _].
  exact (proj2 (build_mutation two_nodes i2v_ids Hwf) "28").
Defined.

Lemma load_from_same_keys n (flat flat' : pydict flat_node) :
  dict_keys flat = dict_keys flat' → load_from n flat = load_from n flat'.
Proof.
  unfold dict_keys. revert n flat'.
  induction flat as [|[k v] flat IH]; intros n [|[k' v'] flat']; try done.
  rewrite !fmap_cons. intros [= -> Hrest]. cbn [load_from].
  by rewrite (IH (S n) flat' Hrest).
Qed.

(** After [build] the interpreter is in the state a fresh load of the
    pruned map would give. *)
Lemma build_state flat keep :
  dict_wf flat →
  (build keep (json_load flat)).2 = json_load (prompt_after flat keep).
Proof.
  intros Hwf. unfold json_load at 2.
  rewrite <- (load_from_same_keys 0 flat) by (by rewrite prompt_after_keys).
  unfold build. cbn [snd heap prompt json_load]. f_equal.
  apply list_eq. intros i.
  rewrite select_filter by (by unfold dict_wf; rewrite load_from_keys).
  rewrite prompt_after_spec by done.
  rewrite !list_lookup_fmap.
  destruct (flat !! i) as [[k node]|] eqn:Hi.
  - pose proof (build_heap_lookup keep flat i k node Hwf Hi) as Hh.
    unfold build, json_load in Hh. cbn [snd heap prompt] in Hh.
    rewrite select_filter in Hh
      by (by unfold dict_wf; rewrite load_from_keys).
    rewrite Hh. done.
  - rewrite prune_all_lookup by apply selected_locs_NoDup.
    rewrite list_lookup_fmap, Hi. cbn. by case_decide.
Qed.

(** A second [build] on the same [prompt] works on the map the first one
    pruned: its document is the extraction from that map.  So a node
    selected by both calls has been pruned by both keep-sets, and one of
    its References survives only if the producer is in both. *)
Theorem build_sequence flat keep1 keep2 :
  flat_wf flat →
  (build keep2 (build keep1 (json_load flat)).2).1
  = extract (prompt_after flat keep1) keep2 ∧
  ∀ nid node, dict_get flat nid = Some node → nid ∈ keep2 →
    dict_get (extract (prompt_after flat keep1) keep2) nid
    = Some (prune_node keep2
              (if decide (nid ∈ keep1) then prune_node keep1 node else node)) ∧
    (nid ∈ keep1 →
     ∀ nm p x, dict_get (inputs node) nm = Some (JList [JStr p; x]) →
       dict_get (inputs (prune_node keep2 (prune_node keep1 node))) nm
       = if decide (p ∈ keep1 ∧ p ∈ keep2)
         then Some (JList [JStr p; x]) else None).
Proof.
  intros [Hwf Hins]. split.
  - rewrite build_state by done. reflexivity.
  - intros nid node Hget Hk2.
    assert (Hwf' : dict_wf (prompt_after flat keep1)).
    { unfold dict_wf. by rewrite prompt_after_keys. }
    assert (Hin : dict_wf (inputs node)).
    { apply dict_get_Some_elem in Hget. rewrite Forall_forall in Hins.
      exact (Hins _ Hget). }
    split.
    + rewrite extract_get by done.
      destruct (decide (nid ∈ keep2)); [|done].
      by rewrite build_frame, Hget by done.
    + intros Hk1 nm p x Hnm.
      assert (Hin1 : dict_wf (inputs (prune_node keep1 node))).
      { unfold prune_node. cbn [with_inputs inputs].
        rewrite clean_inputs_filter by done. by apply dict_wf_filter. }
      rewrite prune_node_get by done. rewrite prune_node_get, Hnm by done.
      unfold kept. cbn [as_reference].
      destruct (decide (p ∈ keep1)); [|by case_decide; [naive_solver|]].
      cbn [as_reference].
      repeat case_decide; try done; naive_solver.
Qed.

Lemma build_sequence_witness :
  flat_wf two_nodes ∧
  (build t2v_ids (build i2v_ids (json_load two_nodes)).2).1
  = extract (prompt_after two_nodes i2v_ids) t2v_ids.
Proof.
  split; [exact two_nodes_wf|].
  exact (proj1 (build_sequence two_nodes i2v_ids t2v_ids two_nodes_wf)).
Defined.

(** The two documents of the script: the first is the extraction of the
    i2v set from the loaded map, the second the extraction of the t2v
    set from what the first call left of it. *)
Theorem build_all_documents flat :
  dict_wf flat →
  build_all flat
  = (extract flat i2v_ids, extract (prompt_after flat i2v_ids) t2v_ids).
Proof.
  intros Hwf. unfold build_all.
  pose proof (build_state flat i2v_ids Hwf) as Hst.
  unfold extract at 1.
  destruct (build i2v_ids (json_load flat)) as [d1 st1]. cbn [fst snd] in *.
  subst st1. unfold extract.
  by destruct (build t2v_ids (json_load (prompt_after flat i2v_ids))).
Qed.

Lemma build_all_documents_witness :
  build_all two_nodes
  = (extract two_nodes i2v_ids,
     extract (prompt_after two_nodes i2v_ids) t2v_ids).
Proof.
  destruct two_nodes_wf as [Hwf _].
  exact (build_all_documents two_nodes Hwf).
Defined.
End BuildSequence.

(** ** Extraction at the edges *)

Section ExtractEdges.
Implicit Types (keep : gset string) (flat : pydict flat_node).

Lemma prune_node_all keep node :
  dict_wf (inputs node) →
  (∀ nm val p, (nm, val) ∈ inputs node → as_reference val = Some p →
               p ∈ keep) →
  prune_node keep node = node.
Proof.
  intros Hwf Hall. unfold prune_node. rewrite clean_inputs_filter by done.
  destruct node as [c ins]. unfold with_inputs. cbn [class_type inputs] in *.
  f_equal. clear Hwf. induction ins as [|[nm val] ins IH]; [done|].
  rewrite filter_cons. cbn [snd].
  destruct (decide (kept keep val)) as [Hk|Hk].
  - f_equal. apply IH. intros nm' val' p Hin. apply (Hall nm'). by right.
  - exfalso. apply Hk. unfold kept.
    destruct (as_reference val) as [p|] eqn:Hr; [|done].
    apply (Hall nm val p); [by left|done].
Qed.

(** A keep-set that has every key of the map and every producer named in
    it changes nothing: the written document is the map itself. *)
Theorem extract_identity flat keep :
  flat_wf flat →
  (∀ k, k ∈ dict_keys flat → k ∈ keep) →
  (∀ nid node nm val p, (nid, node) ∈ flat → (nm, val) ∈ inputs node →
     as_reference val = Some p → p ∈ keep) →
  extract flat keep = flat.
Proof.
  intros [Hwf Hins] Hkeys Hrefs. rewrite extract_spec by done.
  clear Hwf. induction flat as [|[k node] flat IH]; [done|].
  apply Forall_cons in Hins as [Hn Hins]. cbn [snd] in Hn.
  rewrite filter_cons. cbn [fst].
  destruct (decide (k ∈ keep)) as [Hk|Hk].
  - rewrite fmap_cons. cbn [fst snd]. f_equal.
    + f_equal. apply prune_node_all; [done|].
      intros nm val p. apply (Hrefs k node). by left.
    + apply IH; [done| |].
      * intros k' Hk'. apply Hkeys. unfold dict_keys in *. rewrite fmap_cons.
        by right.
      * intros nid n' nm val p Hin. apply (Hrefs nid n'). by right.
  - exfalso. apply Hk, Hkeys. unfold dict_keys. rewrite fmap_cons. by left.
Qed.

Lemma extract_identity_witness :
  extract two_nodes t2v_ids = two_nodes.
Proof.
  apply (extract_identity two_nodes t2v_ids two_nodes_wf).
  - unfold two_nodes. cbn. intros k Hk. rewrite !elem_of_cons in Hk.
    destruct Hk as [->|[->|Hk]]; [by_compute|by_compute|].
    by apply elem_of_nil in Hk.
  - unfold two_nodes. intros nid node nm val p Hin Hval Hr.
    rewrite !elem_of_cons in Hin.
    destruct Hin as [[= -> ->]|[[= -> ->]|Hin]].
    + cbn [inputs] in Hval. rewrite !elem_of_cons in Hval.
      destruct Hval as [[= -> ->]|[[= -> ->]|Hval]].
      * cbn in Hr. injection Hr as <-. by_compute.
      * discriminate Hr.
      * by apply elem_of_nil in Hval.
    + cbn [inputs] in Hval. by apply elem_of_nil in Hval.
    + by apply elem_of_nil in Hin.
Defined.

(** Extraction keeps the retained nodes in the order of the map, and an
    empty keep-set gives an empty document. *)
Theorem extract_order flat keep :
  dict_wf flat →
  dict_keys (extract flat keep) = filter (λ k, k ∈ keep) (dict_keys flat) ∧
  extract flat ∅ = [].
Proof.
  intros Hwf. split.
  - rewrite extract_spec, dict_keys_fmap by done. unfold dict_keys.
    clear Hwf. induction flat as [|[k node] flat IH]; [done|].
    rewrite fmap_cons, !filter_cons. cbn [fst].
    destruct (decide (k ∈ keep)); [rewrite fmap_cons; cbn [fst]|];
      by rewrite IH.
  - rewrite extract_spec by done. clear Hwf.
    induction flat as [|[k node] flat IH]; [done|].
    rewrite filter_cons. cbn [fst].
    destruct (decide (k ∈ (∅ : gset string))) as [Hk|_]; [|done].
    by apply not_elem_of_empty in Hk.
Qed.

Lemma extract_order_witness :
  dict_keys (extract two_nodes i2v_ids) = ["9"] ∧ extract two_nodes ∅ = [].
Proof.
  destruct two_nodes_wf as [Hwf _].
  destruct (extract_order two_nodes i2v_ids Hwf) as [Hord Hempty].
  split; [|exact Hempty]. rewrite Hord. vm_compute. reflexivity.
Defined.
End ExtractEdges.
